(* ===== verification/_CoqProject ===== *)
-Q . S2P
Prelude.v
BitList.v
Codec.v
Pipeline.v
Bits.v
BitStream.v
BitWriter.v
TestBits.v
TestBitsBlocks.v
TestConcatenate.v
Output.v
