(* ===== verification/Prelude.v ===== *)
(** * A verification of qpdf's bit codec and pipeline stages

    The repository under [src/] holds two of qpdf's library tests:
    [src/libtests/bits.cc], which drives the bit-level reader and writer
    ([read_bits], [write_bits] of [bits_functions.hh], the classes
    [BitStream] and [BitWriter]) over a [Pl_Buffer] sink, and
    [src/libtests/concatenate.cc], which chains [Pl_Concatenate] in front
    of a [Pl_Flate] compressor in front of a [Pl_Buffer], writes two
    logical sub-streams and decompresses the result.  The library code
    those tests call is not under [src/]; it is modelled from the
    specification ([spec.md], sections 3 to 7) and marked so in the
    manifest.  The tests themselves are modelled line by line.

    ** How the parts interact

    - the bit-read primitive consumes bits from a byte buffer through a
      cursor (byte index, bit offset 7..0, bits available);
    - the bit-write primitive packs bits into a pending byte and hands
      each completed byte to a downstream pipeline stage;
    - [BitStream] keeps a cursor over a borrowed buffer and calls the
      read primitive; [BitWriter] keeps the pending byte and calls the
      write primitive against a pipeline it points to;
    - pipeline stages accept [write] and [finish]; [Pl_Buffer] is a sink,
      [Pl_Flate] transforms the stream at [finish] and forwards it,
      [Pl_Concatenate] forwards writes and swallows [finish] until
      [manualFinish].

    ** Files

    - [Prelude] (this file): the exception type, a state-and-exception
      monad with its notation in [qpdf_scope], the hint databases, the
      tactics and the integer lemmas shared by all files.
    - [BitList]: the abstract view of a bit stream as a [list bool],
      most-significant bit first ([to_bits], [bits_to_Z],
      [bytes_to_bits]); it is the specification the reader and writer
      are proved against.
    - [Codec]: the interface [Codec] of the compression algorithm
      ([Pl_Flate]'s zlib is an external collaborator, specified by its
      round trip only) and a run-length instance used by the concrete
      runs.
    - [Pipeline]: the interface [Pipeline] of a stage (write, finish)
      with its law, and the stage model of [Pl_Buffer],
      [Pl_Concatenate] and [Pl_Flate] as one inductive chain.
    - [Bits]: [read_bits] and [write_bits] of [bits_functions.hh], with
      their loops as [Fixpoint]s on fuel.
    - [BitStream]: the [BitStream] class (getBits, getBitsSigned,
      skipToNextByte, reset).
    - [BitWriter]: the [BitWriter] class (writeBits, writeBitsInt,
      writeBitsSigned, flush) and the write/read round trip.
    - [TestBits]: [src/libtests/bits.cc], with its output as a list of
      printed lines.
    - [TestBitsBlocks]: the read block of [bits.cc] as any sequence of
      reads, against an abstract reader; the write and [BitWriter]
      blocks as any sequence of their calls.
    - [TestConcatenate]: [src/libtests/concatenate.cc].
    - [Output]: the text each printed line of [bits.cc] writes to
      [std::cout] (decimal, two-digit hex, newlines), and the [for] loop
      of [print_buffer] as written.

    ** State and operations

    - [Bits]: the locals [p], [bit_offset], [bits_available] that
      [read_bits] takes by reference are the record [cursor]; [read_bits]
      is a [st cursor Z] whose guard raises [Exhaustion] before the loop
      runs, so a failed read leaves the cursor unchanged.  [write_bits]
      takes [ch], [bit_offset] and the pipeline as the record [wstate P],
      for any [Pipeline P]; a failing pipeline stops the loop with its
      exception.
    - [BitStream]: the borrowed buffer, its length and a [cursor]; each
      method is a [st BitStream _]; [reachable] is the step relation of
      the reader.
    - [BitWriter]: its state is a [wstate P]; [BitWriter_new] starts at
      offset 7 with an empty byte.
    - [Pipeline]: a chain is a value of [stage], each stage holding its
      downstream stage; [stage_write], [stage_finish], [manualFinish] and
      [getBuffer] return the new chain or a [Contract_violation].
    - [TestBits]: the locals of [test()], the shared [Pl_Buffer] [bp],
      the [BitStream] [b], the [BitWriter] [bw] and standard output form
      the record [world]; every helper and block of [bits.cc] is a
      [st world unit]; [bp] is one field shared by [test_write_bits],
      [bw] and [print_buffer], as in the C++ code.
    - [TestBitsBlocks]: [test_reads] runs [test_read_bits] for a list of
      widths; [wcall] names the six calls of the write blocks
      ([test_write_bits], [print_buffer], and the [BitWriter] methods on
      [bw]) and [run_calls] runs any list of them on the world.
    - [TestConcatenate]: [main] as an [exn + _] computation over the
      stage chains; [b1] is read at the end of the chain.
    - [Output]: [render_line] gives the characters of each [line] and
      [stdout_text] the whole output; [e.what()] is a parameter.
      [print_buffer_loop] is the [for] loop of [print_buffer] (lines
      52-54) with its [unsigned long] index [i]: [++i] and [l - 1] wrap
      modulo [2^64] ([wrap64]); [print_buffer_text] adds the newline of
      line 55.

    ** The theorems

    - [Bits]: [read_bits] returns the bits of the abstract stream at the
      cursor position and advances it ([read_bits_spec]), fails exactly
      on exhaustion without moving ([read_bits_fails]), returns a value
      below [2^w] ([read_bits_fits]); [write_bits] appends exactly the
      [n] low bits of the value to what was emitted and pending
      ([write_bits_spec]); a simulation lemma relates writes into two
      pipelines that answer alike ([write_loop_sim]).
    - [BitStream]: every reachable reader is well formed
      ([reachable_wf], by rule induction); [skipToNextByte_spec];
      [getBitsSigned_range] for the two's complement reading.
    - [BitWriter]: [flush_spec], [flush_idempotent], the unsigned and
      signed write/read round trips, and [buf_sim]: writers over a
      [Pl_Buffer] and over a recording pipeline stay related.
    - [Pipeline]: [concatenate_sessions] (sub-streams through a
      concatenation equal one stream), [flate_roundtrip],
      [manualFinish_once].
    - [TestBits] and [TestConcatenate]: the claims about the code under
      [src/]: the behaviour of [test_read_bits], [test_write_bits],
      [print_buffer] and the printing of [getBits] and [getBitsSigned]
      on every world, the round trips through the shared buffer, the
      merge of [pipeStringAndFinish] calls through a concatenation, the
      failure of a second [pipeStringAndFinish] sent straight into a
      compressor ([without_concatenate_fails]), and the success line and
      exit status of [concatenate.cc] for every codec
      ([concatenate_main_passes]).
      [test_read_bits] converts the value read with [to_ulong]
      ([QIntC::to_ulong], line 30), which never raises for a read of at
      most 64 bits ([test_read_bits_fits]).  Printing [b.getBits(n)] or
      [b.getBitsSigned(n)] past the end raises the exhaustion error
      before printing and changes nothing ([print_getBits_exhausted]).
    - [TestBitsBlocks]: the read block refines the abstract reader of
      specification 4.1 ([test_reads_refines]); repeated reads reach
      exhaustion after exactly [bits_available / n] reads
      ([test_reads_exhaust]); no sequence of write-block calls raises,
      and the invariant [world_ok] (both writers well formed, [bp] a
      [Pl_Buffer] of bytes) holds throughout ([write_calls_safe]);
      writing back, with [test_write_bits], the fields read at
      consecutive positions from a byte boundary reproduces the bytes
      that were read, for every split of them into fields
      ([write_back]).
    - [Output]: a printed buffer line reads back as the buffer
      ([buffer_text_roundtrip]) and has [3 l - 1] characters
      ([buffer_text_length]).  The proof that every byte prints as two
      hex digits checks all 256 bytes by computation.  The loop of
      [print_buffer] terminates from every index [i <= l < 2^64], with a
      text independent of the fuel ([print_buffer_loop_total]); run as
      written it prints exactly the text of the lines [buffer_lines]
      that [TestBits] records, the empty buffer included
      ([print_buffer_text_lines]); and [print_buffer] on the world
      appends that text to standard output ([print_buffer_stdout]).

    ** Fuel

    The loops of [read_bits] and [write_bits] run on fuel equal to the
    number of bits wanted: every iteration consumes at least one bit, so
    this is enough, and [read_loop_fuel] and [write_loop_fuel] show that
    any larger fuel gives the same result.  The loop of [print_buffer]
    runs on one unit of fuel per test of [i < l]: [print_buffer_text]
    gives it [l + 1], and [print_buffer_loop_total] shows that any fuel
    above [l - i] returns the same text.

    ** Not modelled

    The messages of the exceptions ([e.what()]) are a parameter of
    [Output]: neither the code under [src/] nor the specification fixes
    them.  [read_bits] is specified for widths up to 64; the model
    reads any width, and [to_ulong] then raises on values of at least
    [2^64], where the C++ code would have wrapped its [unsigned long
    long]: no theorem depends on widths above 64.  Memory management ([Buffer],
    shared pointers, [delete]) has no observable effect; zlib is the
    abstract [Codec].  [Pl_Flate] is modelled by its contract only
    (specification 4.8): it collects its input and transforms it at
    [finish].  How the C++ stage feeds zlib in chunks through a
    fixed-size output buffer is neither under [src/] nor described by
    the specification, so it is not modelled; no output of the tests
    depends on it, since both read the stream only after [finish].
*)

From Stdlib Require Import ZArith List Lia String Bool.
Import ListNotations.

(** ** Exceptions

    The error taxonomy of the specification (section 7): a read past the
    end of the bit stream, a violated pipeline contract, and a failure of
    the compression transform; and the [std::range_error] of [QIntC]
    when a value does not fit the integer type it is converted to.  C++
    exceptions are values of this type. *)
Inductive exn : Type :=
| Exhaustion (wanted available : nat)
| Contract_violation (what : string)
| Transform_failure (what : string)
| Range_error (value : Z).

(** ** A state monad with exceptions

    C++ exceptions leave behind every side effect made before the
    [throw]: the state is returned on both paths. *)
Definition st (S A : Type) : Type := S -> S * (exn + A).

Definition st_ret {S A} (a : A) : st S A := fun s => (s, inr a).

Definition st_bind {S A B} (m : st S A) (k : A -> st S B) : st S B :=
  fun s => match m s with
           | (s', inr a) => k a s'
           | (s', inl e) => (s', inl e)
           end.

Definition st_throw {S A} (e : exn) : st S A := fun s => (s, inl e).

Definition st_catch {S A} (m : st S A) (h : exn -> st S A) : st S A :=
  fun s => match m s with
           | (s', inl e) => h e s'
           | r => r
           end.

Definition st_get {S} : st S S := fun s => (s, inr s).
Definition st_put {S} (s : S) : st S unit := fun _ => (s, inr tt).
Definition st_modify {S} (f : S -> S) : st S unit := fun s => (f s, inr tt).

(** Run a sub-computation on a component of the state. *)
Definition st_focus {S T A} (get : S -> T) (set : T -> S -> S) (m : st T A) : st S A :=
  fun s => let '(t', r) := m (get s) in (set t' s, r).

Declare Scope qpdf_scope.
Delimit Scope qpdf_scope with qpdf.
Notation "x <- m ;; k" := (st_bind m (fun x => k))
  (at level 61, m at next level, right associativity) : qpdf_scope.
Notation "m ;; k" := (st_bind m (fun _ => k))
  (at level 61, right associativity) : qpdf_scope.

(** The same notation for the plain error type [exn + A]. *)
Definition res_bind {A B} (m : exn + A) (k : A -> exn + B) : exn + B :=
  match m with inl e => inl e | inr a => k a end.
Notation "x <-? m ;; k" := (res_bind m (fun x => k))
  (at level 61, m at next level, right associativity) : qpdf_scope.

(** Two results related pointwise: the same exception, or related
    values. *)
Definition res_rel {A B} (R : A -> B -> Prop) (x : exn + A) (y : exn + B) : Prop :=
  match x, y with
  | inl e, inl e' => e = e'
  | inr a, inr b => R a b
  | _, _ => False
  end.

Lemma st_bind_ret_l {S A B} (a : A) (k : A -> st S B) s :
  st_bind (st_ret a) k s = k a s.
Proof. reflexivity. Qed.

Lemma st_bind_assoc {S A B C} (m : st S A) (k : A -> st S B) (k' : B -> st S C) s :
  st_bind (st_bind m k) k' s = st_bind m (fun a => st_bind (k a) k') s.
Proof. unfold st_bind. destruct (m s) as [s' [e|a]]; reflexivity. Qed.

(** ** Lists *)

Lemma Forall_firstn_skipn {A} (P : A -> Prop) k l :
  Forall P l -> Forall P (firstn k l) /\ Forall P (skipn k l).
Proof. intros H. rewrite <- (firstn_skipn k l) in H. now apply Forall_app in H. Qed.

Lemma res_bind_inr {A B} (a : A) (k : A -> exn + B) : res_bind (inr a) k = k a.
Proof. reflexivity. Qed.

(** ** Integer lemmas shared by the bit-level files *)

Open Scope Z_scope.

Lemma pow2_pos (n : Z) : 0 <= n -> 0 < 2 ^ n.
Proof. intros; apply Z.pow_pos_nonneg; lia. Qed.

Lemma pow2_nat_pos (n : nat) : 0 < 2 ^ Z.of_nat n.
Proof. apply pow2_pos; lia. Qed.

Lemma pow2_add_nat (a b : nat) :
  2 ^ Z.of_nat (a + b) = 2 ^ Z.of_nat a * 2 ^ Z.of_nat b.
Proof. rewrite Nat2Z.inj_add; apply Z.pow_add_r; lia. Qed.

(** A bit above the width of a non-negative number is clear. *)
Lemma testbit_above (x k i : Z) :
  0 <= x < 2 ^ k -> 0 <= k <= i -> Z.testbit x i = false.
Proof.
  intros Hx Hk. rewrite <- (Z.mod_small x (2 ^ k)) by lia.
  apply Z.mod_pow2_bits_high; lia.
Qed.

(** Or-ing a number below [2^k] into a value shifted left by [k] is an
    addition: the loops of [read_bits] and [write_bits] rely on it. *)
Lemma lor_shiftl_small (r x k : Z) :
  0 <= k -> 0 <= x < 2 ^ k -> Z.lor (Z.shiftl r k) x = r * 2 ^ k + x.
Proof.
  intros Hk Hx.
  assert (Hland : Z.land (Z.shiftl r k) x = 0).
  { apply Z.bits_inj'; intros i Hi. rewrite Z.land_spec, Z.bits_0.
    destruct (Z.lt_ge_cases i k).
    - rewrite Z.shiftl_spec_low by lia; reflexivity.
    - rewrite (testbit_above x k i) by lia. apply andb_false_r. }
  rewrite <- Z.lxor_lor, <- Z.add_nocarry_lxor by exact Hland.
  rewrite Z.shiftl_mul_pow2 by lia. reflexivity.
Qed.

(** Masking [k + lo] low bits then dropping [lo] of them keeps the [k]
    bits above [lo]. *)
Lemma shiftr_land_ones (b k lo : Z) :
  0 <= k -> 0 <= lo ->
  Z.shiftr (Z.land b (Z.ones (k + lo))) lo = Z.shiftr b lo mod 2 ^ k.
Proof.
  intros Hk Hlo. apply Z.bits_inj'; intros i Hi.
  rewrite Z.testbit_mod_pow2, !Z.shiftr_spec, Z.land_spec, Z.testbit_ones_nonneg by lia.
  destruct (Z.ltb_spec (i + lo) (k + lo)), (Z.ltb_spec i k); try lia;
    destruct (Z.testbit b (i + lo)); reflexivity.
Qed.

Lemma mod_pow2_bound (v n : Z) : 0 <= n -> 0 <= v mod 2 ^ n < 2 ^ n.
Proof. intros; apply Z.mod_pos_bound, pow2_pos; lia. Qed.

(** ** Automation

    [bits] collects the bound facts that close side conditions;
    [bitlist] rewrites lengths and values of bit lists;
    [testbit] is the rewrite base that pushes [Z.testbit] through the
    bit operations of the model (as in the bitwise tactics of coqutil). *)
Create HintDb bits discriminated.
#[export] Hint Resolve pow2_nat_pos mod_pow2_bound : bits.

Create Rewrite HintDb testbit.
Create Rewrite HintDb bitlist.
#[export] Hint Rewrite Z.land_spec Z.lor_spec Z.testbit_0_l : testbit.
#[export] Hint Rewrite Z.shiftr_spec Z.shiftl_spec Z.testbit_ones_nonneg
  Z.testbit_mod_pow2 using lia : testbit.

(** [nat_to_Z] moves every [nat] fact of the context to [Z] for [lia]. *)
Ltac zify_nat := rewrite ?Nat2Z.inj_add, ?Nat2Z.inj_sub, ?Nat2Z.inj_min,
  ?Nat2Z.inj_mul by lia.

(** Case on the comparisons that [Z.testbit_ones_nonneg] and
    [Z.testbit_mod_pow2] leave in a goal. *)
Ltac case_ltb :=
  repeat match goal with
  | |- context [Z.ltb ?a ?b] => destruct (Z.ltb_spec a b)
  | |- context [Z.leb ?a ?b] => destruct (Z.leb_spec a b)
  end.

Close Scope Z_scope.
