(* ===== verification/BitList.v ===== *)
(** * The abstract bit stream

    The specification reads and writes fields most-significant bit first
    across byte boundaries.  This file gives that view a precise form: a
    byte buffer denotes the [list bool] of its bits, MSB first, a field of
    width [n] denotes its [n] low bits, MSB first, and [bits_to_Z] reads a
    list of bits back as an unsigned number.  [read_bits] and [write_bits]
    of [Bits] are proved against these definitions. *)

From S2P Require Import Prelude.
From Stdlib Require Import ZArith List Lia Bool.
Import ListNotations.
Open Scope Z_scope.

(** The [n] low bits of [v], most significant first. *)
Fixpoint to_bits (n : nat) (v : Z) : list bool :=
  match n with
  | O => []
  | S n' => Z.testbit v (Z.of_nat n') :: to_bits n' v
  end.

(** The unsigned number whose binary digits are [l], MSB first. *)
Fixpoint bits_to_Z (l : list bool) : Z :=
  match l with
  | [] => 0
  | b :: l' => Z.b2z b * 2 ^ Z.of_nat (length l') + bits_to_Z l'
  end.

Definition byte_bits (b : Z) : list bool := to_bits 8 b.

(** The bit stream a byte buffer denotes. *)
Definition bytes_to_bits (bs : list Z) : list bool := flat_map byte_bits bs.

(** The [w] bits of a stream that start at bit position [pos]. *)
Definition window (s : list bool) (pos w : nat) : list bool := firstn w (skipn pos s).

(** ** Generic list facts *)

Lemma window_firstn s pos a b : window s pos a = firstn a (window s pos (a + b)).
Proof. unfold window. rewrite firstn_firstn. f_equal. lia. Qed.

Lemma window_skipn s pos a b : window s (pos + a) b = skipn a (window s pos (a + b)).
Proof.
  unfold window. rewrite skipn_firstn_comm, skipn_skipn. f_equal; [lia|f_equal; lia].
Qed.

Lemma firstn_add_split {A} (a b : nat) (l : list A) :
  firstn (a + b) l = firstn a l ++ firstn b (skipn a l).
Proof.
  revert l; induction a as [|a IH]; intros l; [reflexivity|].
  destruct l as [|x l]; simpl; [now rewrite firstn_nil|]. now rewrite IH.
Qed.

Lemma skipn_nth_cons {A} (p : nat) (l : list A) (d : A) :
  (p < length l)%nat -> skipn p l = nth p l d :: skipn (S p) l.
Proof.
  revert l; induction p as [|p IH]; intros [|x l] H; simpl in *; try lia; auto.
  apply IH; lia.
Qed.

(** ** [to_bits] *)

Lemma length_to_bits n v : length (to_bits n v) = n.
Proof. induction n; simpl; auto. Qed.

Lemma to_bits_ext n a b :
  (forall i, 0 <= i < Z.of_nat n -> Z.testbit a i = Z.testbit b i) ->
  to_bits n a = to_bits n b.
Proof.
  induction n as [|n IH]; intros H; simpl; [reflexivity|].
  rewrite IH by (intros; apply H; lia). rewrite H by lia. reflexivity.
Qed.

(** Splitting a field: the high [a] bits then the low [b] bits. *)
Lemma to_bits_add a b v :
  to_bits (a + b) v = to_bits a (Z.shiftr v (Z.of_nat b)) ++ to_bits b v.
Proof.
  induction a as [|a IH]; simpl; [reflexivity|].
  rewrite IH, Z.shiftr_spec by lia. f_equal. f_equal. lia.
Qed.

Lemma skipn_to_bits k n v :
  (k <= n)%nat -> skipn k (to_bits n v) = to_bits (n - k) v.
Proof.
  intros H. replace n with (k + (n - k))%nat at 1 by lia.
  rewrite to_bits_add, skipn_app, length_to_bits, Nat.sub_diag.
  rewrite skipn_all2 by (rewrite length_to_bits; lia). reflexivity.
Qed.

Lemma firstn_to_bits k n v :
  (k <= n)%nat -> firstn k (to_bits n v) = to_bits k (Z.shiftr v (Z.of_nat (n - k))).
Proof.
  intros H. replace n with (k + (n - k))%nat at 1 by lia.
  rewrite to_bits_add, firstn_app, length_to_bits, Nat.sub_diag, firstn_O, app_nil_r.
  apply firstn_all2. rewrite length_to_bits; lia.
Qed.

Lemma to_bits_mod n v : to_bits n (v mod 2 ^ Z.of_nat n) = to_bits n v.
Proof.
  apply to_bits_ext; intros i Hi. apply Z.mod_pow2_bits_low; lia.
Qed.

Lemma to_bits_zero n : to_bits n 0 = repeat false n.
Proof. induction n; simpl; [reflexivity|]. now rewrite IHn, Z.testbit_0_l. Qed.

(** A number [r * 2^k + x] with [x] below [2^k] is [r] followed by [x]. *)
Lemma to_bits_concat n k r x :
  0 <= x < 2 ^ Z.of_nat k ->
  to_bits (n + k) (r * 2 ^ Z.of_nat k + x) = to_bits n r ++ to_bits k x.
Proof.
  intros Hx. pose proof (pow2_nat_pos k).
  rewrite to_bits_add, Z.shiftr_div_pow2 by lia. f_equal.
  - f_equal. rewrite Z.add_comm, Z.div_add by lia. rewrite Z.div_small by lia. lia.
  - rewrite <- to_bits_mod, <- (to_bits_mod k x). f_equal.
    rewrite Z.add_comm, Z.mod_add by lia. reflexivity.
Qed.

(** ** [bits_to_Z] *)

Lemma bits_to_Z_app l1 l2 :
  bits_to_Z (l1 ++ l2) = bits_to_Z l1 * 2 ^ Z.of_nat (length l2) + bits_to_Z l2.
Proof.
  induction l1 as [|b l1 IH]; simpl; [reflexivity|].
  rewrite IH, length_app, pow2_add_nat. ring.
Qed.

Lemma bits_to_Z_bound l : 0 <= bits_to_Z l < 2 ^ Z.of_nat (length l).
Proof.
  induction l as [|b l IH]; cbn [bits_to_Z length]; [simpl; lia|].
  rewrite Nat2Z.inj_succ, Z.pow_succ_r by lia. destruct b; cbn [Z.b2z]; lia.
Qed.

Lemma bits_to_Z_to_bits n v : bits_to_Z (to_bits n v) = v mod 2 ^ Z.of_nat n.
Proof.
  induction n as [|n IH]; cbn [to_bits bits_to_Z]; [now rewrite Z.mod_1_r|].
  rewrite IH, length_to_bits, Z.testbit_spec' by lia.
  pose proof (pow2_nat_pos n).
  replace (2 ^ Z.of_nat (S n)) with (2 ^ Z.of_nat n * 2)
    by (rewrite Nat2Z.inj_succ, Z.pow_succ_r by lia; ring).
  rewrite Z.rem_mul_r by lia. ring.
Qed.

(** The other round trip: the bits of [bits_to_Z l] are [l]. *)
Lemma to_bits_bits_to_Z l : to_bits (length l) (bits_to_Z l) = l.
Proof.
  induction l as [|b l IH]; cbn [bits_to_Z length]; [reflexivity|].
  change (S (length l)) with (1 + length l)%nat.
  rewrite to_bits_concat by apply bits_to_Z_bound. rewrite IH.
  destruct b; reflexivity.
Qed.

Lemma to_bits_bits_to_Z_small n v :
  0 <= v < 2 ^ Z.of_nat n -> bits_to_Z (to_bits n v) = v.
Proof. intros; rewrite bits_to_Z_to_bits; apply Z.mod_small; lia. Qed.

(** ** Byte buffers as bit streams *)

Lemma bytes_to_bits_cons b bs :
  bytes_to_bits (b :: bs) = byte_bits b ++ bytes_to_bits bs.
Proof. reflexivity. Qed.

Lemma bytes_to_bits_app bs1 bs2 :
  bytes_to_bits (bs1 ++ bs2) = bytes_to_bits bs1 ++ bytes_to_bits bs2.
Proof. apply flat_map_app. Qed.

Lemma length_bytes_to_bits bs : length (bytes_to_bits bs) = (8 * length bs)%nat.
Proof.
  induction bs as [|b bs IH]; [reflexivity|].
  rewrite bytes_to_bits_cons, length_app, IH. unfold byte_bits. rewrite length_to_bits. cbn [length]. lia.
Qed.

Lemma length_byte_bits b : length (byte_bits b) = 8%nat.
Proof. apply length_to_bits. Qed.

(** At byte boundaries, the bits of a buffer split as its bytes do. *)
Lemma skipn_bytes_to_bits_8 : forall q l, skipn (8 * q) (bytes_to_bits l) = bytes_to_bits (skipn q l).
Proof.
  induction q as [|q IH]; intros [|b l]; try reflexivity.
  replace (8 * S q)%nat with (8 * q + 8)%nat by lia.
  rewrite <- skipn_skipn, bytes_to_bits_cons, skipn_app.
  rewrite length_byte_bits, Nat.sub_diag.
  rewrite (skipn_all2 (byte_bits b)) by (rewrite length_byte_bits; lia). apply IH.
Qed.

Lemma firstn_bytes_to_bits_8 : forall q l, firstn (8 * q) (bytes_to_bits l) = bytes_to_bits (firstn q l).
Proof.
  induction q as [|q IH]; intros [|b l]; try reflexivity.
  replace (8 * S q)%nat with (8 + 8 * q)%nat by lia.
  rewrite bytes_to_bits_cons, firstn_app, length_byte_bits, firstn_all2 by (rewrite length_byte_bits; lia).
  replace (8 + 8 * q - 8)%nat with (8 * q)%nat by lia. rewrite IH. reflexivity.
Qed.

(** The bytes [j .. j + k - 1] of a buffer, as a window of its bits. *)
Lemma window_bytes_to_bits j k l :
  window (bytes_to_bits l) (8 * j) (8 * k) = bytes_to_bits (firstn k (skipn j l)).
Proof. unfold window. now rewrite skipn_bytes_to_bits_8, firstn_bytes_to_bits_8. Qed.

(** Bit position [8p + k] of a buffer is bit [k] of byte [p]. *)
Lemma skipn_bytes_to_bits p k bs :
  (p < length bs)%nat -> (k <= 8)%nat ->
  skipn (8 * p + k) (bytes_to_bits bs)
  = skipn k (byte_bits (nth p bs 0)) ++ bytes_to_bits (skipn (S p) bs).
Proof.
  intros Hp Hk.
  rewrite Nat.add_comm, <- skipn_skipn, skipn_bytes_to_bits_8, (skipn_nth_cons p bs 0) by exact Hp.
  rewrite bytes_to_bits_cons, skipn_app, length_byte_bits.
  now replace (k - 8)%nat with 0%nat by lia.
Qed.

#[export] Hint Resolve bits_to_Z_bound : bits.
#[export] Hint Rewrite length_to_bits length_byte_bits length_bytes_to_bits bits_to_Z_app : bitlist.
