(* ===== verification/Codec.v ===== *)
(** * The compression algorithm behind [Pl_Flate]

    The specification (section 4.8) treats zlib as an external
    collaborator: [Pl_Flate] is specified by its input/output contract
    only, and the one property the core relies on is that decompressing
    a compressed byte sequence gives it back.  [Codec] is that contract;
    the pipeline theorems are proved for every instance.  [RunLength] is
    one instance (a byte-oriented run-length code, not zlib's deflate),
    used only so that the test programs can be run by [vm_compute]. *)

From S2P Require Import Prelude.
From Stdlib Require Import ZArith List Lia Bool.
Import ListNotations.
Open Scope Z_scope.

Class Codec : Type := {
  deflate : list Z -> list Z;
  inflate : list Z -> option (list Z);
  inflate_deflate : forall s, inflate (deflate s) = Some s
}.

Module RunLength.

(** Pairs (count, byte), counts from 1 to 255. *)
Fixpoint encode (s : list Z) : list Z :=
  match s with
  | [] => []
  | b :: rest =>
      match encode rest with
      | c :: b' :: tl =>
          if (b =? b') && (c <? 255) then (c + 1) :: b :: tl
          else 1 :: b :: c :: b' :: tl
      | enc => 1 :: b :: enc
      end
  end.

Fixpoint decode (l : list Z) : option (list Z) :=
  match l with
  | [] => Some []
  | c :: b :: tl =>
      match decode tl with
      | Some s => Some (repeat b (Z.to_nat c) ++ s)
      | None => None
      end
  | [_] => None
  end.

Lemma encode_shape s :
  encode s = [] \/ exists c b tl, encode s = c :: b :: tl /\ 1 <= c.
Proof.
  induction s as [|b rest IH]; simpl; [now left|right].
  destruct IH as [-> | (c & b' & tl & -> & Hc)]; [now exists 1, b, []|].
  destruct ((b =? b') && (c <? 255)); eexists _, _, _; split; try reflexivity; lia.
Qed.

Lemma decode_encode s : decode (encode s) = Some s.
Proof.
  induction s as [|b rest IH]; [reflexivity|]. simpl.
  destruct (encode_shape rest) as [E | (c & b' & tl & E & Hc)]; rewrite E in *.
  - simpl in IH. injection IH as <-. reflexivity.
  - destruct ((b =? b') && (c <? 255)) eqn:Hb.
    + apply andb_prop in Hb as [Hb _]. apply Z.eqb_eq in Hb as <-.
      simpl in *. destruct (decode tl) as [s'|]; [|discriminate].
      injection IH as <-. replace (Z.to_nat (c + 1)) with (S (Z.to_nat c)) by lia.
      reflexivity.
    + simpl in *. destruct (decode tl) as [s'|]; [|discriminate].
      injection IH as <-. reflexivity.
Qed.

End RunLength.

#[export] Instance run_length_codec : Codec := {|
  deflate := RunLength.encode;
  inflate := RunLength.decode;
  inflate_deflate := RunLength.decode_encode
|}.
