(* ===== verification/Pipeline.v ===== *)
(** * Pipeline stages ([Pipeline], [Pl_Buffer], [Pl_Concatenate], [Pl_Flate])

    The interface [Pipeline] is what a stage promises to whoever writes
    into it (specification, section 4.5): [pl_write] accepts a run of
    bytes, [pl_finish] signals the end of input, and both may fail.  The
    bit writer of [Bits] and [BitWriter] is proved against the interface
    and its law [pl_write_app] only.

    The three stages the tests use are one inductive chain: a stage
    holds the stage it forwards to, the terminal [Pl_Buffer] holds the
    bytes.  A C++ chain is built from separate objects linked by
    pointers, each stage pointed to by exactly one upstream stage; the
    nesting below is that chain, and the test programs read the
    terminal buffer through [sink].  The library code is not under
    [src/]; it is modelled from the specification, sections 4.5 to 4.8
    and 7. *)

From S2P Require Import Prelude Codec.
From Stdlib Require Import ZArith List Lia Bool String.
Import ListNotations.
Open Scope qpdf_scope.

(** ** The stage interface *)
Class Pipeline (P : Type) : Type := {
  pl_write : list Z -> P -> exn + P;
  pl_finish : P -> exn + P
}.

(** Writing a run of bytes is writing its two halves in turn.  The bit
    writer hands bytes over one at a time, and this law lets a client
    reason about the whole run. *)
Class PipelineLaws (P : Type) `{Pipeline P} : Prop :=
  pl_write_app : forall a b s, pl_write (a ++ b) s = (s' <-? pl_write a s ;; pl_write b s').

(** Writing a list of bytes one [write(&ch, 1)] call at a time. *)
Fixpoint pl_write_each {P} `{Pipeline P} (bs : list Z) (s : P) : exn + P :=
  match bs with
  | [] => inr s
  | b :: bs' => s' <-? pl_write [b] s ;; pl_write_each bs' s'
  end.

(** A downstream stage that records every byte written to it (the mock
    downstream of the specification's design notes): the reference the
    bit writer is specified against. *)
Record recorder : Type := mk_recorder { recorded : list Z }.

#[export] Instance recorder_pipeline : Pipeline recorder := {|
  pl_write bs r := inr (mk_recorder (recorded r ++ bs));
  pl_finish r := inr r
|}.

(** ** The stages *)

Inductive flate_action : Type := a_deflate | a_inflate.

Inductive stage : Type :=
| Pl_Buffer (data : list Z) (ready : bool)
| Pl_Concatenate (finished : bool) (next : stage)
| Pl_Flate (action : flate_action) (input : list Z) (finished : bool) (next : stage).

Section Stages.
Context `{Codec}.

Definition flate_transform (action : flate_action) (input : list Z) : exn + list Z :=
  match action with
  | a_deflate => inr (deflate input)
  | a_inflate =>
      match inflate input with
      | Some out => inr out
      | None => inl (Transform_failure "flate: inflate: data: invalid")
      end
  end.

(** [write]: the buffer appends and is no longer ready, the
    concatenation forwards, the compressor collects its input; after
    the end of input a write is a contract violation. *)
Fixpoint stage_write (bs : list Z) (s : stage) : exn + stage :=
  match s with
  | Pl_Buffer data _ => inr (Pl_Buffer (data ++ bs) false)
  | Pl_Concatenate finished next =>
      if finished then inl (Contract_violation "Pl_Concatenate: write after manualFinish")
      else next' <-? stage_write bs next ;; inr (Pl_Concatenate false next')
  | Pl_Flate action input finished next =>
      if finished then inl (Contract_violation "Pl_Flate: write after finish")
      else inr (Pl_Flate action (input ++ bs) false next)
  end.

(** A write followed by a finish of the same stage.  [Pl_Flate]'s
    [finish] does this to its downstream stage: it writes the
    transformed stream and then finishes it ([stage_write_finish_eq]
    below shows it is the composition). *)
Fixpoint stage_write_finish (bs : list Z) (s : stage) : exn + stage :=
  match s with
  | Pl_Buffer data _ => inr (Pl_Buffer (data ++ bs) true)
  | Pl_Concatenate finished next =>
      if finished then inl (Contract_violation "Pl_Concatenate: write after manualFinish")
      else next' <-? stage_write bs next ;; inr (Pl_Concatenate false next')
  | Pl_Flate action input finished next =>
      if finished then inl (Contract_violation "Pl_Flate: write after finish")
      else out <-? flate_transform action (input ++ bs) ;;
           next' <-? stage_write_finish out next ;;
           inr (Pl_Flate action [] true next')
  end.

(** [finish]: the buffer becomes readable; the concatenation swallows
    the signal; the compressor transforms its input, forwards it and
    finishes its downstream stage, once. *)
Definition stage_finish (s : stage) : exn + stage :=
  match s with
  | Pl_Buffer data _ => inr (Pl_Buffer data true)
  | Pl_Concatenate finished next => inr (Pl_Concatenate finished next)
  | Pl_Flate action input finished next =>
      if finished then inl (Contract_violation "Pl_Flate: finish after finish")
      else out <-? flate_transform action input ;;
           next' <-? stage_write_finish out next ;;
           inr (Pl_Flate action [] true next')
  end.

(** [Pl_Concatenate::manualFinish]: propagate [finish] downstream,
    once. *)
Definition manualFinish (s : stage) : exn + stage :=
  match s with
  | Pl_Concatenate false next =>
      next' <-? stage_finish next ;; inr (Pl_Concatenate true next')
  | Pl_Concatenate true _ =>
      inl (Contract_violation "Pl_Concatenate: manualFinish called twice")
  | _ => inl (Contract_violation "manualFinish: not a Pl_Concatenate")
  end.

(** [Pl_Buffer::getBuffer]: hand over the bytes and start afresh;
    before [finish] it is a contract violation. *)
Definition getBuffer (s : stage) : exn + (list Z * stage) :=
  match s with
  | Pl_Buffer data true => inr (data, Pl_Buffer [] true)
  | Pl_Buffer _ false => inl (Contract_violation "Pl_Buffer::getBuffer() called when not ready")
  | _ => inl (Contract_violation "getBuffer: not a Pl_Buffer")
  end.

(** The terminal stage of a chain, and its replacement. *)
Fixpoint sink (s : stage) : stage :=
  match s with
  | Pl_Buffer _ _ => s
  | Pl_Concatenate _ next | Pl_Flate _ _ _ next => sink next
  end.

#[export] Instance stage_pipeline : Pipeline stage := {|
  pl_write := stage_write;
  pl_finish := stage_finish
|}.

(** ** Lemmas *)

Lemma stage_write_finish_eq bs s :
  stage_write_finish bs s = (s' <-? stage_write bs s ;; stage_finish s').
Proof.
  destruct s as [data r|fin next|act input fin next]; simpl; [reflexivity| |].
  - destruct fin; [reflexivity|]. destruct (stage_write bs next); reflexivity.
  - destruct fin; reflexivity.
Qed.

#[export] Instance stage_pipeline_laws : PipelineLaws stage.
Proof.
  intros a b s. cbn [pl_write stage_pipeline].
  induction s as [data r|fin next IH|act input fin next IH]; simpl.
  - now rewrite app_assoc.
  - destruct fin; [reflexivity|]. rewrite IH.
    destruct (stage_write a next); reflexivity.
  - destruct fin; [reflexivity|]. now rewrite app_assoc.
Qed.

(** ** Sessions through a [Pl_Concatenate] *)

(** Several logical streams, each written and then finished. *)
Fixpoint sessions (ss : list (list Z)) (s : stage) : exn + stage :=
  match ss with
  | [] => inr s
  | x :: ss' => s1 <-? stage_write x s ;; s2 <-? stage_finish s1 ;; sessions ss' s2
  end.

(** The same streams written one after the other, with no finish. *)
Fixpoint write_all (ss : list (list Z)) (s : stage) : exn + stage :=
  match ss with
  | [] => inr s
  | x :: ss' => s1 <-? stage_write x s ;; write_all ss' s1
  end.

Lemma sessions_concatenate : forall ss d,
  sessions ss (Pl_Concatenate false d) = (d' <-? write_all ss d ;; inr (Pl_Concatenate false d')).
Proof.
  induction ss as [|x ss IH]; intros d; [reflexivity|]. cbn [sessions write_all stage_write].
  destruct (stage_write x d) as [e|d1]; [reflexivity|]. apply IH.
Qed.

Lemma write_all_concat : forall ss d,
  ss <> [] -> write_all ss d = stage_write (List.concat ss) d.
Proof.
  induction ss as [|x ss IH]; intros d Hne; [contradiction|]. cbn [write_all List.concat].
  destruct ss as [|y ss'].
  - cbn [List.concat]. rewrite app_nil_r. destruct (stage_write x d); reflexivity.
  - rewrite (stage_pipeline_laws x). cbn [pl_write stage_pipeline].
    destruct (stage_write x d) as [e|d1]; [reflexivity|]. cbn [res_bind].
    apply IH. discriminate.
Qed.

(** Writing and compressing one stream, and reading the sink. *)
Definition run_flate (action : flate_action) (x : list Z) : exn + list Z :=
  c <-? stage_write x (Pl_Flate action [] false (Pl_Buffer [] false)) ;;
  c <-? stage_finish c ;;
  r <-? getBuffer (sink c) ;;
  inr (fst r).

(** ** Properties of the stages *)

(** [Pl_Concatenate] merges sub-streams: writing and finishing any
    non-empty sequence of byte strings through it, then calling
    [manualFinish], leaves its downstream stage exactly as writing the
    concatenation of the strings once and finishing it once would. *)
Theorem concatenate_sessions ss d :
  ss <> [] ->
  (s <-? sessions ss (Pl_Concatenate false d) ;; manualFinish s)
  = (d1 <-? stage_write (List.concat ss) d ;; d2 <-? stage_finish d1 ;;
     inr (Pl_Concatenate true d2)).
Proof.
  intros Hne. rewrite sessions_concatenate, <- write_all_concat by exact Hne.
  destruct (write_all ss d); reflexivity.
Qed.

(** Compressing a byte string through a [Pl_Flate] in deflate mode
    in front of a [Pl_Buffer], then decompressing the buffered bytes
    through an inflate chain, gives back the string. *)
Theorem flate_roundtrip x :
  (y <-? run_flate a_deflate x ;; run_flate a_inflate y) = inr x.
Proof. unfold run_flate. cbn. rewrite inflate_deflate. reflexivity. Qed.

(** [manualFinish] propagates at most once: after it succeeds, a
    second [manualFinish] and any further write are contract
    violations. *)
Theorem manualFinish_once s s' :
  manualFinish s = inr s' ->
  manualFinish s' = inl (Contract_violation "Pl_Concatenate: manualFinish called twice") /\
  forall bs, stage_write bs s' =
             inl (Contract_violation "Pl_Concatenate: write after manualFinish").
Proof.
  destruct s as [|[|] next|]; cbn; try discriminate.
  destruct (stage_finish next) as [e|next']; cbn; [discriminate|].
  intros H'; injection H' as <-. split; reflexivity.
Qed.

End Stages.

(** [concatenate_sessions] at a concrete chain: two sub-streams through a concatenation in
    front of a compressor and a buffer. *)
Lemma concatenate_sessions_witness :
  ([[1; 2]; [3]] : list (list Z)) <> [] /\
  (s <-? sessions [[1; 2]; [3]] (Pl_Concatenate false (Pl_Flate a_deflate [] false (Pl_Buffer [] false)))
   ;; manualFinish s)
  = (d1 <-? stage_write [1; 2; 3] (Pl_Flate a_deflate [] false (Pl_Buffer [] false)) ;;
     d2 <-? stage_finish d1 ;; inr (Pl_Concatenate true d2)).
Proof.
  split; [discriminate|].
  apply (concatenate_sessions [[1; 2]; [3]] (Pl_Flate a_deflate [] false (Pl_Buffer [] false))).
  discriminate.
Defined.

(** [manualFinish_once] at a concrete chain. *)
Lemma manualFinish_once_witness :
  manualFinish (Pl_Concatenate false (Pl_Buffer [7] false)) = inr (Pl_Concatenate true (Pl_Buffer [7] true)) /\
  manualFinish (Pl_Concatenate true (Pl_Buffer [7] true))
    = inl (Contract_violation "Pl_Concatenate: manualFinish called twice").
Proof.
  split; [reflexivity|].
  apply (manualFinish_once (Pl_Concatenate false (Pl_Buffer [7] false))). reflexivity.
Defined.
