(* ===== verification/Bits.v ===== *)
(** * The bit-read and bit-write primitives ([bits_functions.hh])

    [read_bits] takes [bits_wanted] bits, MSB first, from a byte buffer
    through a cursor (byte index [p], bit offset [bit_offset] counting
    down from 7, [bits_available]); [write_bits] packs the low [bits] bits
    of a value into a pending byte and hands each completed byte to a
    pipeline.  Both loops are [Fixpoint]s on fuel; the fuel they are run
    with is the bit count, which is enough because every iteration
    consumes at least one bit (proved below).  The code is not under
    [src/]: it is modelled from the specification, sections 4.1 and 4.2. *)

From S2P Require Import Prelude BitList Pipeline.
From Stdlib Require Import ZArith List Lia Bool.
Import ListNotations.
Open Scope Z_scope.

(** ** The bit cursor (specification, section 3) *)
Record cursor : Type := mk_cursor {
  p : nat;                  (** index of the current byte *)
  bit_offset : nat;         (** next bit of that byte, 7 = MSB *)
  bits_available : nat      (** bits left to read *)
}.

(** ** [read_bits] *)

(** One iteration takes [min bits_wanted (bit_offset + 1)] bits of the
    current byte, masks off the bits already read, right-justifies them,
    appends them to [result], and moves the cursor. *)
Fixpoint read_loop (fuel : nat) (buf : list Z) (bits_wanted : nat) (c : cursor)
    (result : Z) : cursor * Z :=
  match fuel with
  | O => (c, result)
  | S fuel' =>
      if Nat.eqb bits_wanted 0 then (c, result) else
      let off := bit_offset c in
      let byte := Z.land (nth (p c) buf 0) (Z.ones (Z.of_nat (off + 1))) in
      let to_copy := Nat.min bits_wanted (off + 1) in
      let leftover := (off + 1 - to_copy)%nat in
      let byte := Z.shiftr byte (Z.of_nat leftover) in
      let result := Z.lor (Z.shiftl result (Z.of_nat to_copy)) byte in
      let c' := if Nat.eqb leftover 0
                then mk_cursor (S (p c)) 7 (bits_available c - to_copy)
                else mk_cursor (p c) (leftover - 1) (bits_available c - to_copy) in
      read_loop fuel' buf (bits_wanted - to_copy) c' result
  end.

(** The exhaustion check comes first, so a failing call leaves the
    cursor as it was. *)
Definition read_bits (buf : list Z) (bits_wanted : nat) : st cursor Z :=
  fun c =>
    if Nat.ltb (bits_available c) bits_wanted
    then (c, inl (Exhaustion bits_wanted (bits_available c)))
    else let '(c', result) := read_loop bits_wanted buf bits_wanted c 0 in
         (c', inr result).

(** ** Cursor positions

    A cursor denotes the absolute bit position [8 p + (7 - bit_offset)];
    it is well formed over [buf] when its offset is a bit number and the
    bits it claims are inside the buffer. *)
Definition cursor_pos (c : cursor) : nat := (8 * p c + (7 - bit_offset c))%nat.

Definition cursor_at (pos avail : nat) : cursor :=
  mk_cursor (pos / 8) (7 - pos mod 8) avail.

Definition cursor_wf (buf : list Z) (c : cursor) : Prop :=
  (bit_offset c <= 7)%nat /\ (cursor_pos c + bits_available c <= 8 * length buf)%nat.

Lemma cursor_at_pos c : (bit_offset c <= 7)%nat -> cursor_at (cursor_pos c) (bits_available c) = c.
Proof.
  destruct c as [p0 off avail]; unfold cursor_at, cursor_pos; cbn [p bit_offset bits_available].
  intros H. pose proof (Nat.div_mod_eq (8 * p0 + (7 - off)) 8).
  pose proof (Nat.mod_upper_bound (8 * p0 + (7 - off)) 8). f_equal; lia.
Qed.

Lemma cursor_pos_at pos avail : cursor_pos (cursor_at pos avail) = pos.
Proof.
  unfold cursor_pos, cursor_at; cbn [p bit_offset].
  pose proof (Nat.div_mod_eq pos 8). pose proof (Nat.mod_upper_bound pos 8). lia.
Qed.

Lemma cursor_at_avail pos avail : bits_available (cursor_at pos avail) = avail.
Proof. reflexivity. Qed.

Lemma cursor_at_offset pos avail : (bit_offset (cursor_at pos avail) <= 7)%nat.
Proof. unfold cursor_at; cbn [bit_offset]. pose proof (Nat.mod_upper_bound pos 8). lia. Qed.

(** ** The loop body against the bit stream *)

Lemma length_window s pos w :
  (pos + w <= length s)%nat -> length (window s pos w) = w.
Proof. intros H. unfold window. rewrite length_firstn, length_skipn. lia. Qed.

Lemma window_split s pos a b :
  window s pos (a + b) = window s pos a ++ window s (pos + a) b.
Proof.
  unfold window. rewrite firstn_add_split, skipn_skipn. f_equal. f_equal. f_equal. lia.
Qed.

(** The bits one iteration extracts are the next [to_copy] bits of the
    stream, and their value is below [2 ^ to_copy]. *)
Lemma read_chunk buf c tc :
  (bit_offset c <= 7)%nat -> (p c < length buf)%nat -> (tc <= bit_offset c + 1)%nat ->
  Z.shiftr (Z.land (nth (p c) buf 0) (Z.ones (Z.of_nat (bit_offset c + 1))))
           (Z.of_nat (bit_offset c + 1 - tc))
  = bits_to_Z (window (bytes_to_bits buf) (cursor_pos c) tc).
Proof.
  intros Hoff Hp Htc. unfold window, cursor_pos.
  rewrite skipn_bytes_to_bits by lia. unfold byte_bits.
  rewrite skipn_to_bits, firstn_app, length_to_bits by lia.
  replace (tc - (8 - (7 - bit_offset c)))%nat with 0%nat by lia.
  rewrite firstn_O, app_nil_r, firstn_to_bits, bits_to_Z_to_bits by lia.
  replace (Z.of_nat (bit_offset c + 1)) with (Z.of_nat tc + Z.of_nat (bit_offset c + 1 - tc)) by lia.
  rewrite shiftr_land_ones by lia. do 3 f_equal. lia.
Qed.

Lemma read_loop_zero fuel buf c result : read_loop fuel buf 0 c result = (c, result).
Proof. destruct fuel; reflexivity. Qed.

(** The cursor after one iteration is [to_copy] bits further on. *)
Lemma read_step_cursor c tc :
  (bit_offset c <= 7)%nat -> (0 < tc <= bit_offset c + 1)%nat ->
  let c' := if Nat.eqb (bit_offset c + 1 - tc) 0
            then mk_cursor (S (p c)) 7 (bits_available c - tc)
            else mk_cursor (p c) (bit_offset c + 1 - tc - 1) (bits_available c - tc) in
  (bit_offset c' <= 7)%nat /\ cursor_pos c' = (cursor_pos c + tc)%nat /\
  bits_available c' = (bits_available c - tc)%nat.
Proof.
  intros Hoff Htc c'. subst c'. unfold cursor_pos.
  destruct (Nat.eqb_spec (bit_offset c + 1 - tc) 0); cbn [p bit_offset bits_available]; lia.
Qed.

(** The loop reads the next [w] bits of the stream, for any fuel at
    least [w]. *)
Lemma read_loop_spec buf : forall fuel w c result,
  (bit_offset c <= 7)%nat -> (w <= fuel)%nat -> (w <= bits_available c)%nat ->
  (cursor_pos c + w <= 8 * length buf)%nat ->
  read_loop fuel buf w c result =
    (cursor_at (cursor_pos c + w) (bits_available c - w),
     result * 2 ^ Z.of_nat w + bits_to_Z (window (bytes_to_bits buf) (cursor_pos c) w)).
Proof.
  induction fuel as [|fuel IH]; intros w c result Hoff Hfuel Havail Hpos.
  { replace w with 0%nat by lia. rewrite read_loop_zero, Nat.add_0_r, Nat.sub_0_r, cursor_at_pos by exact Hoff.
    f_equal. simpl. ring. }
  cbn [read_loop]. destruct (Nat.eqb_spec w 0) as [->|Hw].
  { rewrite Nat.add_0_r, Nat.sub_0_r, cursor_at_pos by exact Hoff. f_equal. simpl. ring. }
  set (tc := Nat.min w (bit_offset c + 1)).
  destruct (read_step_cursor c tc Hoff) as (Hoff' & Hpos' & Hav'); [lia|].
  rewrite IH by (try rewrite Hpos'; try rewrite Hav'; lia). rewrite Hpos', Hav'.
  rewrite read_chunk by (unfold cursor_pos in Hpos; lia).
  pose proof (bits_to_Z_bound (window (bytes_to_bits buf) (cursor_pos c) tc)) as Hb.
  rewrite length_window in Hb by (rewrite length_bytes_to_bits; lia).
  rewrite lor_shiftl_small by lia.
  replace (window (bytes_to_bits buf) (cursor_pos c) w)
    with (window (bytes_to_bits buf) (cursor_pos c) tc
          ++ window (bytes_to_bits buf) (cursor_pos c + tc) (w - tc))
    by (rewrite <- window_split; f_equal; lia).
  replace (2 ^ Z.of_nat w) with (2 ^ Z.of_nat tc * 2 ^ Z.of_nat (w - tc))
    by (rewrite <- pow2_add_nat; f_equal; lia).
  rewrite bits_to_Z_app, length_window by (rewrite length_bytes_to_bits; lia).
  f_equal; [f_equal; lia | ring].
Qed.

(** Every iteration keeps the partial result below [2 ^ (bits so far)],
    whatever the cursor and the buffer: no call of width up to 64
    overflows the [unsigned long long] result. *)
Lemma read_loop_bound buf : forall fuel w c result k,
  0 <= result < 2 ^ Z.of_nat k ->
  0 <= snd (read_loop fuel buf w c result) < 2 ^ Z.of_nat (k + w).
Proof.
  induction fuel as [|fuel IH]; intros w c result k Hr; cbn [read_loop].
  { cbn [snd]. pose proof (Z.pow_le_mono_r 2 (Z.of_nat k) (Z.of_nat (k + w))). lia. }
  destruct (Nat.eqb_spec w 0) as [->|Hw].
  { cbn [snd]. rewrite Nat.add_0_r. lia. }
  set (tc := Nat.min w (bit_offset c + 1)).
  replace (k + w)%nat with ((k + tc) + (w - tc))%nat by lia.
  apply IH. rewrite pow2_add_nat.
  replace (Z.of_nat (bit_offset c + 1)) with (Z.of_nat tc + Z.of_nat (bit_offset c + 1 - tc)) by lia.
  rewrite shiftr_land_ones by lia.
  pose proof (mod_pow2_bound (Z.shiftr (nth (p c) buf 0) (Z.of_nat (bit_offset c + 1 - tc))) (Z.of_nat tc)).
  rewrite lor_shiftl_small by lia. pose proof (pow2_nat_pos tc). nia.
Qed.

(** The read loop terminates within [bits_wanted] iterations,
    whatever the cursor and the buffer: every iteration consumes at least
    one bit, so any fuel of at least [bits_wanted] gives the same result. *)
Theorem read_loop_fuel buf : forall fuel fuel' w c result,
  (w <= fuel)%nat -> (w <= fuel')%nat ->
  read_loop fuel buf w c result = read_loop fuel' buf w c result.
Proof.
  induction fuel as [|fuel IH]; intros [|fuel'] w c result Hf Hf';
    try (replace w with 0%nat by lia; rewrite !read_loop_zero; reflexivity).
  cbn [read_loop]. destruct (Nat.eqb_spec w 0); [reflexivity|]. apply IH; lia.
Qed.

(** ** Properties of [read_bits] *)

Lemma read_bits_correct buf c w :
  cursor_wf buf c -> (w <= bits_available c)%nat ->
  read_bits buf w c =
    (cursor_at (cursor_pos c + w) (bits_available c - w),
     inr (bits_to_Z (window (bytes_to_bits buf) (cursor_pos c) w))).
Proof.
  intros [Hoff Hwf] Hw. unfold read_bits.
  destruct (Nat.ltb_spec (bits_available c) w); [lia|].
  rewrite read_loop_spec by lia. reflexivity.
Qed.

(** Over a well-formed cursor, a read of [w <= bits_available]
    bits succeeds and returns the number formed by the next [w] bits of
    the buffer, most significant first; the new cursor is well formed,
    exactly [w] bits further on, with exactly [w] bits fewer available. *)
Theorem read_bits_spec buf c w :
  cursor_wf buf c -> (w <= bits_available c)%nat ->
  exists c', read_bits buf w c = (c', inr (bits_to_Z (window (bytes_to_bits buf) (cursor_pos c) w))) /\
    cursor_wf buf c' /\ cursor_pos c' = (cursor_pos c + w)%nat /\
    bits_available c' = (bits_available c - w)%nat.
Proof.
  intros Hwf Hw. rewrite read_bits_correct by assumption.
  eexists; split; [reflexivity|]. destruct Hwf as [Hoff Hin].
  rewrite cursor_pos_at, cursor_at_avail. split; [|split; reflexivity].
  split; [apply cursor_at_offset|]. rewrite cursor_pos_at, cursor_at_avail. lia.
Qed.

(** A read fails exactly when more bits are wanted than are
    available; it then raises the exhaustion error and leaves the cursor
    (byte, offset and count) unchanged. *)
Theorem read_bits_fails buf w c e :
  snd (read_bits buf w c) = inl e <->
  read_bits buf w c = (c, inl e) /\ e = Exhaustion w (bits_available c) /\
  (bits_available c < w)%nat.
Proof.
  unfold read_bits. destruct (Nat.ltb_spec (bits_available c) w).
  - cbn [snd]. split; [intros He; injection He as <-; auto | intros (_ & -> & _); reflexivity].
  - destruct (read_loop w buf w c 0). cbn [snd]. split; [discriminate | lia].
Qed.

(** A zero-width read succeeds on every cursor, returns 0 and does
    not move the cursor. *)
Theorem read_bits_zero buf c : read_bits buf 0 c = (c, inr 0).
Proof.
  unfold read_bits. destruct (Nat.ltb_spec (bits_available c) 0); [lia|].
  rewrite read_loop_zero. reflexivity.
Qed.

Lemma read_bits_bounded buf w c c' r :
  read_bits buf w c = (c', inr r) -> 0 <= r < 2 ^ Z.of_nat w.
Proof.
  unfold read_bits. destruct (Nat.ltb (bits_available c) w); [discriminate|].
  pose proof (read_loop_bound buf w w c 0 0) as Hb.
  destruct (read_loop w buf w c 0) as [c0 r0]. intros Hr; injection Hr as _ <-.
  apply Hb. simpl; lia.
Qed.

(** Whatever the cursor and the buffer, a successful read of [w]
    bits returns a number in [0, 2^w); for [w <= 64] it fits the
    [unsigned long long] result, so the accumulation never wraps. *)
Theorem read_bits_fits buf w c c' r :
  (w <= 64)%nat -> read_bits buf w c = (c', inr r) ->
  0 <= r < 2 ^ Z.of_nat w /\ r < 2 ^ 64.
Proof.
  intros Hw Hr. apply read_bits_bounded in Hr. split; [exact Hr|].
  pose proof (Z.pow_le_mono_r 2 (Z.of_nat w) 64). lia.
Qed.

(** [read_bits] preserves the well-formedness of the cursor, on
    both the success and the failure path. *)
Theorem read_bits_wf buf w c :
  cursor_wf buf c -> cursor_wf buf (fst (read_bits buf w c)).
Proof.
  intros Hwf. destruct (Nat.ltb_spec (bits_available c) w).
  - unfold read_bits. destruct (Nat.ltb_spec (bits_available c) w); [exact Hwf | lia].
  - rewrite read_bits_correct by (auto; lia). destruct Hwf as [Hoff Hin].
    split; [apply cursor_at_offset|]. cbn [fst]. rewrite cursor_pos_at, cursor_at_avail. lia.
Qed.

(** ** [write_bits] *)

(** The writer's state during a call: the pending byte [ch], the next
    free bit [bit_offset] of it (7 = MSB), and the downstream pipeline. *)
Record wstate (P : Type) : Type := mk_wstate {
  ch : Z;
  w_bit_offset : nat;
  w_pl : P
}.
Arguments mk_wstate {P}.
Arguments ch {P}.
Arguments w_bit_offset {P}.
Arguments w_pl {P}.

Section WriteBits.
Context {P : Type} `{Pipeline P}.

(** One iteration writes [min bits (bit_offset + 1)] bits of [val], the
    highest ones not yet written, into the free bits of [ch]; a byte
    that fills up is written to the pipeline and [ch] starts afresh.  If
    the pipeline throws, [ch] already holds the new bits and
    [bit_offset] is unchanged, as in the code. *)
Fixpoint write_loop (fuel : nat) (val : Z) (bits : nat) : st (wstate P) unit :=
  fun s =>
    match fuel with
    | O => (s, inr tt)
    | S fuel' =>
        if Nat.eqb bits 0 then (s, inr tt) else
        let off := w_bit_offset s in
        let bits_to_write := Nat.min bits (off + 1) in
        let newval := Z.land (Z.shiftr val (Z.of_nat (bits - bits_to_write)))
                             (Z.ones (Z.of_nat bits_to_write)) in
        let bits_left_in_ch := (off + 1 - bits_to_write)%nat in
        let newval := Z.shiftl newval (Z.of_nat bits_left_in_ch) in
        let c := Z.lor (ch s) newval in
        if Nat.eqb bits_left_in_ch 0 then
          match pl_write [c] (w_pl s) with
          | inl e => (mk_wstate c off (w_pl s), inl e)
          | inr pl' => write_loop fuel' val (bits - bits_to_write) (mk_wstate 0 7 pl')
          end
        else write_loop fuel' val (bits - bits_to_write)
               (mk_wstate c (off - bits_to_write) (w_pl s))
    end.

Definition write_bits (val : Z) (bits : nat) : st (wstate P) unit :=
  write_loop bits val bits.

End WriteBits.

(** The pending byte of a well-formed writer holds [7 - bit_offset]
    written bits above [bit_offset + 1] clear ones. *)
Definition pending {P} (s : wstate P) : list bool :=
  to_bits (7 - w_bit_offset s) (ch s / 2 ^ Z.of_nat (w_bit_offset s + 1)).

Definition wstate_wf {P} (s : wstate P) : Prop :=
  (w_bit_offset s <= 7)%nat /\ 0 <= ch s < 2 ^ 8 /\
  ch s mod 2 ^ Z.of_nat (w_bit_offset s + 1) = 0.

(** One iteration on the pending byte, as arithmetic: the written bits
    are appended to the pending ones and the byte stays a byte. *)
Lemma write_step_bits (c x : Z) (off btw : nat) :
  (off <= 7)%nat -> (1 <= btw <= off + 1)%nat -> 0 <= c < 2 ^ 8 ->
  c mod 2 ^ Z.of_nat (off + 1) = 0 ->
  let c' := Z.lor c (Z.shiftl (Z.land x (Z.ones (Z.of_nat btw))) (Z.of_nat (off + 1 - btw))) in
  0 <= c' < 2 ^ 8 /\ c' mod 2 ^ Z.of_nat (off + 1 - btw) = 0 /\
  to_bits (7 - off + btw) (c' / 2 ^ Z.of_nat (off + 1 - btw))
  = to_bits (7 - off) (c / 2 ^ Z.of_nat (off + 1)) ++ to_bits btw x.
Proof.
  intros Hoff Hbtw Hc Hmod c'.
  set (left := (off + 1 - btw)%nat). set (hi := c / 2 ^ Z.of_nat (off + 1)).
  pose proof (pow2_nat_pos btw). pose proof (pow2_nat_pos left). pose proof (pow2_nat_pos (7 - off)).
  assert (Hsplit : 2 ^ Z.of_nat (off + 1) = 2 ^ Z.of_nat btw * 2 ^ Z.of_nat left)
    by (rewrite <- pow2_add_nat; f_equal; lia).
  assert (H8 : 2 ^ 8 = 2 ^ Z.of_nat (7 - off) * 2 ^ Z.of_nat (off + 1))
    by (rewrite <- pow2_add_nat; f_equal; lia).
  assert (Hhi : c = hi * 2 ^ Z.of_nat (off + 1)).
  { rewrite Z.mul_comm. apply Z_div_exact_full_2; lia. }
  assert (Hhib : 0 <= hi < 2 ^ Z.of_nat (7 - off)).
  { split; [apply Z.div_pos; lia|]. apply Z.div_lt_upper_bound; lia. }
  set (nv := x mod 2 ^ Z.of_nat btw).
  pose proof (mod_pow2_bound x (Z.of_nat btw) ltac:(lia)) as Hnv. fold nv in Hnv.
  assert (Hc' : c' = (hi * 2 ^ Z.of_nat btw + nv) * 2 ^ Z.of_nat left).
  { subst c'. rewrite Z.land_ones by lia. fold nv.
    rewrite Hhi, Hsplit, Z.mul_assoc, <- Z.shiftl_mul_pow2 by lia.
    fold left. rewrite <- Z.shiftl_lor, <- (Z.shiftl_mul_pow2 hi) by lia.
    rewrite lor_shiftl_small, !Z.shiftl_mul_pow2 by lia. reflexivity. }
  clearbody c'. subst c'. rewrite Z.div_mul, Z.mod_mul by lia. split; [|split; [reflexivity|]].
  - split; [nia|]. rewrite H8, Hsplit. nia.
  - replace (7 - off + btw)%nat with ((7 - off) + btw)%nat by lia.
    rewrite to_bits_concat by exact Hnv. f_equal. apply to_bits_mod.
Qed.

Lemma write_loop_zero {P} `{Pipeline P} fuel v (s : wstate P) : write_loop fuel v 0 s = (s, inr tt).
Proof. destruct fuel; reflexivity. Qed.

(** The write loop terminates within [bits] iterations on every
    pipeline: every iteration writes at least one bit, so any fuel of at
    least [bits] gives the same result and the same final state. *)
Theorem write_loop_fuel {P} `{Pipeline P} : forall fuel fuel' v n (s : wstate P),
  (n <= fuel)%nat -> (n <= fuel')%nat ->
  write_loop fuel v n s = write_loop fuel' v n s.
Proof.
  induction fuel as [|fuel IH]; intros [|fuel'] v n s Hf Hf';
    try (replace n with 0%nat by lia; rewrite !write_loop_zero; reflexivity).
  cbn [write_loop]. destruct (Nat.eqb_spec n 0); [reflexivity|].
  destruct (Nat.eqb _ 0); [destruct (pl_write _ _); [reflexivity|]|]; apply IH; lia.
Qed.

(** ** [write_bits] against the abstract bit stream

    Over a recording pipeline, the bits a writer has produced are the
    bytes recorded so far followed by the pending bits of [ch]. *)
Definition written_bits (s : wstate recorder) : list bool :=
  bytes_to_bits (recorded (w_pl s)) ++ pending s.

Lemma write_loop_spec : forall fuel v n (s : wstate recorder),
  wstate_wf s -> (n <= fuel)%nat ->
  exists s', write_loop fuel v n s = (s', inr tt) /\ wstate_wf s' /\
             written_bits s' = written_bits s ++ to_bits n v.
Proof.
  induction fuel as [|fuel IH]; intros v n s Hwf Hn.
  { exists s. replace n with 0%nat by lia. rewrite app_nil_r. auto. }
  cbn [write_loop]. destruct (Nat.eqb_spec n 0) as [->|Hn0].
  { exists s. rewrite app_nil_r. auto. }
  destruct s as [c off rec]. destruct Hwf as (Hoff & Hc & Hmod). cbn [ch w_bit_offset w_pl] in *.
  set (btw := Nat.min n (off + 1)).
  destruct (write_step_bits c (Z.shiftr v (Z.of_nat (n - btw))) off btw) as (Hc' & Hmod' & Hbits);
    auto; try lia.
  replace (to_bits n v) with (to_bits btw (Z.shiftr v (Z.of_nat (n - btw))) ++ to_bits (n - btw) v)
    by (rewrite <- to_bits_add; f_equal; lia).
  destruct (Nat.eqb_spec (off + 1 - btw) 0) as [Hleft|Hleft]; cbn [pl_write recorder_pipeline].
  - edestruct (IH v (n - btw)%nat) as (s' & Hrun & Hwf' & Hw');
      [| |rewrite Hrun; exists s'; split; [reflexivity|split; [exact Hwf'|]]].
    + split; [cbn; lia | split; cbn; [lia | reflexivity]].
    + lia.
    + rewrite Hw'. unfold written_bits, pending in *. cbn [recorded w_pl ch w_bit_offset].
      rewrite bytes_to_bits_app. cbn [bytes_to_bits flat_map]. unfold byte_bits.
      rewrite Hleft in Hbits |- *. replace (7 - off + btw)%nat with 8%nat in Hbits by lia.
      rewrite Z.pow_0_r, Z.div_1_r in Hbits. rewrite Hbits. cbn [to_bits].
      rewrite !app_nil_r, <- !app_assoc. reflexivity.
  - edestruct (IH v (n - btw)%nat) as (s' & Hrun & Hwf' & Hw');
      [| |rewrite Hrun; exists s'; split; [reflexivity|split; [exact Hwf'|]]].
    + split; [cbn; lia|]. split; cbn [ch w_bit_offset]; [exact Hc'|].
      replace (off - btw + 1)%nat with (off + 1 - btw)%nat by lia. exact Hmod'.
    + lia.
    + rewrite Hw'. unfold written_bits, pending. cbn [recorded w_pl ch w_bit_offset].
      replace (7 - (off - btw))%nat with (7 - off + btw)%nat by lia.
      replace (off - btw + 1)%nat with (off + 1 - btw)%nat by lia.
      rewrite Hbits, <- !app_assoc. reflexivity.
Qed.

(** Over a well-formed writer, [write_bits v n] always returns, leaves
    a well-formed writer, and appends exactly the [n] low bits of [v],
    most significant first, to the bits produced so far (the bytes
    handed downstream followed by the pending bits). *)
Theorem write_bits_spec v n (s : wstate recorder) :
  wstate_wf s ->
  exists s', write_bits v n s = (s', inr tt) /\ wstate_wf s' /\
             written_bits s' = written_bits s ++ to_bits n v.
Proof. intros Hwf. apply write_loop_spec; auto. Qed.

(** A value that fits in an [unsigned char]. *)
Definition is_byte (b : Z) : Prop := 0 <= b < 2 ^ 8.

(** A byte is determined by its eight bits, and a buffer of bytes by
    its bit stream. *)
Lemma byte_bits_inj x y : is_byte x -> is_byte y -> byte_bits x = byte_bits y -> x = y.
Proof.
  intros Hx Hy E. apply (f_equal bits_to_Z) in E. unfold byte_bits in E.
  rewrite !bits_to_Z_to_bits, !Z.mod_small in E by (unfold is_byte in *; cbn; lia). exact E.
Qed.

Lemma bytes_to_bits_inj : forall a b,
  Forall is_byte a -> Forall is_byte b -> bytes_to_bits a = bytes_to_bits b -> a = b.
Proof.
  induction a as [|x a IH]; intros [|y b] Ha Hb E; try reflexivity;
    try (apply (f_equal (@length bool)) in E; rewrite !length_bytes_to_bits in E; cbn in E; lia).
  inversion Ha as [|? ? Hx Ha']; inversion Hb as [|? ? Hy Hb']; subst.
  rewrite !bytes_to_bits_cons in E.
  assert (Hxy : byte_bits x = byte_bits y).
  { apply (f_equal (firstn 8)) in E.
    rewrite !firstn_app, !length_byte_bits, Nat.sub_diag, !firstn_O, !app_nil_r in E.
    rewrite !firstn_all2 in E by (rewrite length_byte_bits; lia). exact E. }
  rewrite Hxy in E. apply app_inv_head in E.
  f_equal; [apply byte_bits_inj|apply IH]; assumption.
Qed.

(** Every byte a well-formed writer hands to the pipeline is a byte. *)
Lemma write_loop_bytes : forall fuel v n (s : wstate recorder) s' r,
  wstate_wf s -> Forall is_byte (recorded (w_pl s)) ->
  write_loop fuel v n s = (s', r) -> Forall is_byte (recorded (w_pl s')).
Proof.
  induction fuel as [|fuel IH]; intros v n s s' r Hwf Hb Hrun; cbn [write_loop] in Hrun.
  { injection Hrun as <- _. exact Hb. }
  destruct (Nat.eqb_spec n 0); [injection Hrun as <- _; exact Hb|].
  destruct s as [c off rec]. destruct Hwf as (Hoff & Hc & Hmod). cbn [ch w_bit_offset w_pl] in *.
  set (btw := Nat.min n (off + 1)) in Hrun.
  destruct (write_step_bits c (Z.shiftr v (Z.of_nat (n - btw))) off btw) as (Hc' & Hmod' & _);
    auto; try lia.
  destruct (Nat.eqb_spec (off + 1 - btw) 0) as [Hleft|Hleft];
    cbn [pl_write recorder_pipeline] in Hrun; (eapply IH; [| |exact Hrun]).
  - split; [cbn; lia | split; cbn; [lia | reflexivity]].
  - apply Forall_app. split; [exact Hb|]. constructor; [exact Hc'|constructor].
  - split; [cbn; lia|]. split; cbn [ch w_bit_offset]; [exact Hc'|].
    replace (off - btw + 1)%nat with (off + 1 - btw)%nat by lia. exact Hmod'.
  - exact Hb.
Qed.

(** ** The writer is parametric in its pipeline

    Two pipelines that answer every one-byte write alike (related
    states, or the same exception) make [write_bits] behave alike: the
    theorems proved over [recorder] carry over to any stage. *)
Section Simulation.
Context {P Q : Type} {HP : Pipeline P} {HQ : Pipeline Q} (R : P -> Q -> Prop).
Hypothesis write_byte_sim :
  forall p q b, R p q -> res_rel R (pl_write [b] p) (pl_write [b] q).

Definition wstate_rel (s : wstate P) (t : wstate Q) : Prop :=
  ch s = ch t /\ w_bit_offset s = w_bit_offset t /\ R (w_pl s) (w_pl t).

Lemma write_loop_sim : forall fuel v n s t,
  wstate_rel s t ->
  wstate_rel (fst (write_loop fuel v n s)) (fst (write_loop fuel v n t)) /\
  snd (write_loop fuel v n s) = snd (write_loop fuel v n t).
Proof.
  induction fuel as [|fuel IH]; intros v n [c off p0] [c' off' q0] (Hc & Ho & HR);
    cbn [ch w_bit_offset w_pl] in *; subst c' off'; cbn [write_loop ch w_bit_offset w_pl].
  { repeat split; auto. }
  destruct (Nat.eqb n 0); [repeat split; auto|].
  destruct (Nat.eqb _ 0).
  - match goal with |- context [@pl_write _ _ [?b] p0] =>
      pose proof (write_byte_sim p0 q0 b HR) as Hsim;
      destruct (@pl_write _ _ [b] p0) as [e|p1], (@pl_write _ _ [b] q0) as [e'|q1]
    end; cbn in Hsim; try contradiction.
    + subst e'. cbn. repeat split; auto.
    + apply IH. repeat split; auto.
  - apply IH. repeat split; auto.
Qed.
End Simulation.

(** ** Examples: the theorems at the first bytes [F5 15] of [bits.cc] *)

Lemma read_bits_spec_witness :
  exists c', read_bits [0xF5; 0x15] 4 (mk_cursor 0 2 11) = (c', inr 10) /\ cursor_pos c' = 9%nat.
Proof.
  destruct (read_bits_spec [0xF5; 0x15] (mk_cursor 0 2 11) 4) as (c' & Hr & _ & Hp & _).
  - split; cbn; lia.
  - cbn; lia.
  - exists c'. split; [exact Hr | exact Hp].
Defined.

Lemma read_bits_fits_witness : 0 <= 10 < 2 ^ Z.of_nat 4 /\ 10 < 2 ^ 64.
Proof.
  apply (read_bits_fits [0xF5; 0x15] 4 (mk_cursor 0 2 11) (mk_cursor 1 6 7) 10);
    [lia | vm_compute; reflexivity].
Defined.

Lemma read_bits_wf_witness :
  cursor_wf [0xF5; 0x15] (fst (read_bits [0xF5; 0x15] 4 (mk_cursor 0 2 11))).
Proof. apply read_bits_wf. split; cbn; lia. Defined.

Lemma read_loop_fuel_witness :
  read_loop 16 [0xF5; 0x15] 9 (mk_cursor 0 7 16) 0 = read_loop 9 [0xF5; 0x15] 9 (mk_cursor 0 7 16) 0.
Proof. apply read_loop_fuel; lia. Defined.

Lemma write_bits_spec_witness :
  exists s', write_bits 10 4 (mk_wstate 0xF0 2 (mk_recorder [])) = (s', inr tt) /\ wstate_wf s' /\
    written_bits s' = written_bits (mk_wstate 0xF0 2 (mk_recorder [])) ++ to_bits 4 10.
Proof.
  apply write_bits_spec. unfold wstate_wf; cbn. split; [lia|split; [lia|reflexivity]].
Defined.

Lemma write_loop_fuel_witness :
  write_loop 20 10 4 (mk_wstate 0 7 (mk_recorder [])) = write_loop 4 10 4 (mk_wstate 0 7 (mk_recorder [])).
Proof. apply write_loop_fuel; lia. Defined.

Lemma read_bits_fails_witness :
  read_bits [0xF5] 4 (mk_cursor 0 2 3) = (mk_cursor 0 2 3, inl (Exhaustion 4 3)).
Proof.
  apply (proj1 (read_bits_fails [0xF5] 4 (mk_cursor 0 2 3) (Exhaustion 4 3))). vm_compute. reflexivity.
Defined.
