(* ===== verification/BitStream.v ===== *)
(** * The bit reader ([BitStream])

    [BitStream] borrows a buffer of [nbytes] bytes and keeps a cursor
    over it; its operations are thin wrappers of [read_bits]
    (specification, section 4.3).  The state machine has one state, a
    position; the theorems show that every reachable reader has a
    well-formed cursor whose bit count is exactly what is left of the
    buffer, and what each operation does to the position. *)

From S2P Require Import Prelude BitList Pipeline Bits.
From Stdlib Require Import ZArith List Lia Bool.
Import ListNotations.
Open Scope qpdf_scope.
Open Scope Z_scope.

Record BitStream : Type := mk_BitStream {
  start : list Z;      (** the borrowed buffer *)
  nbytes : nat;        (** its length in bytes *)
  cur : cursor         (** [p], [bit_offset], [bits_available] *)
}.

Definition with_cur (c : cursor) (b : BitStream) : BitStream :=
  mk_BitStream (start b) (nbytes b) c.

(** [reset]: back to the first bit, with all [8 * nbytes] bits
    available.  The constructor calls it. *)
Definition reset : st BitStream unit :=
  fun b => (with_cur (mk_cursor 0 7 (8 * nbytes b)) b, inr tt).

Definition BitStream_new (buf : list Z) (n : nat) : BitStream :=
  fst (reset (mk_BitStream buf n (mk_cursor 0 0 0))).

Definition getBits (nbits : nat) : st BitStream Z :=
  fun b => let '(c', r) := read_bits (start b) nbits (cur b) in (with_cur c' b, r).

(** Two's complement over [nbits] bits: a field whose top bit is set,
    that is an unsigned value of at least [2 ^ (nbits - 1)], stands for
    that value minus [2 ^ nbits].  A zero-width field has no top bit and
    reads as 0. *)
Definition sign_extend (nbits : nat) (bits : Z) : Z :=
  if (Nat.ltb 0 nbits) && (2 ^ (Z.of_nat nbits - 1) <=? bits)
  then bits - 2 ^ Z.of_nat nbits else bits.

Definition getBitsSigned (nbits : nat) : st BitStream Z :=
  bits <- getBits nbits ;; st_ret (sign_extend nbits bits).

(** [skipToNextByte]: drop the rest of a partly read byte. *)
Definition skipToNextByte : st BitStream unit :=
  fun b =>
    let c := cur b in
    if Nat.eqb (bit_offset c) 7 then (b, inr tt)
    else let bits_to_skip := (bit_offset c + 1)%nat in
         (with_cur (mk_cursor (S (p c)) 7 (bits_available c - bits_to_skip)) b, inr tt).

(** ** The reader as a state machine *)

Inductive bs_op : Type :=
| Op_getBits (nbits : nat)
| Op_getBitsSigned (nbits : nat)
| Op_skipToNextByte
| Op_reset.

Definition run_op (op : bs_op) (b : BitStream) : BitStream :=
  match op with
  | Op_getBits n => fst (getBits n b)
  | Op_getBitsSigned n => fst (getBitsSigned n b)
  | Op_skipToNextByte => fst (skipToNextByte b)
  | Op_reset => fst (reset b)
  end.

Inductive reachable : BitStream -> Prop :=
| reachable_new buf n : (n <= length buf)%nat -> reachable (BitStream_new buf n)
| reachable_step b op : reachable b -> reachable (run_op op b).

(** The invariant: a bit offset, a buffer at least [nbytes] long, and a
    bit count that is exactly the bits after the position. *)
Definition bs_wf (b : BitStream) : Prop :=
  (bit_offset (cur b) <= 7)%nat /\ (nbytes b <= length (start b))%nat /\
  (cursor_pos (cur b) + bits_available (cur b) = 8 * nbytes b)%nat.

Lemma bs_wf_cursor b : bs_wf b -> cursor_wf (start b) (cur b).
Proof. intros (Ho & Hn & Hp). split; [exact Ho|lia]. Qed.

Lemma getBits_state n b :
  fst (getBits n b) = with_cur (fst (read_bits (start b) n (cur b))) b.
Proof. unfold getBits. destruct (read_bits (start b) n (cur b)); reflexivity. Qed.

Lemma getBitsSigned_state n b : fst (getBitsSigned n b) = fst (getBits n b).
Proof.
  unfold getBitsSigned, st_bind, st_ret. destruct (getBits n b) as [b' [e|r]]; reflexivity.
Qed.

Lemma getBits_wf n b : bs_wf b -> bs_wf (fst (getBits n b)).
Proof.
  intros Hwf. rewrite getBits_state.
  destruct (Nat.ltb_spec (bits_available (cur b)) n).
  - unfold read_bits. destruct (Nat.ltb_spec (bits_available (cur b)) n); [|lia].
    destruct b; exact Hwf.
  - destruct Hwf as (Ho & Hn & Hp).
    rewrite read_bits_correct by (try split; lia).
    split; [apply cursor_at_offset|split; [exact Hn|]].
    cbn [fst cur nbytes with_cur]. rewrite cursor_pos_at, cursor_at_avail. lia.
Qed.

Lemma skipToNextByte_wf b : bs_wf b -> bs_wf (fst (skipToNextByte b)).
Proof.
  intros (Ho & Hn & Hp). unfold skipToNextByte.
  destruct (Nat.eqb_spec (bit_offset (cur b)) 7); [split; auto|].
  unfold cursor_pos in *. repeat split; unfold cursor_pos;
    cbn [fst cur with_cur p bit_offset bits_available start nbytes]; lia.
Qed.

(** ** Properties of [BitStream] *)

(** Every reachable reader (built over a buffer of at least [nbytes]
    bytes, then any sequence of getBits, getBitsSigned, skipToNextByte
    and reset) has a bit offset in [0, 7] and a bit count that is exactly
    the number of bits after its position. *)
Theorem reachable_wf b : reachable b -> bs_wf b.
Proof.
  induction 1 as [buf n Hn|b op Hr IH].
  - unfold bs_wf, BitStream_new, reset, cursor_pos; cbn. lia.
  - destruct op; cbn [run_op].
    + apply getBits_wf, IH.
    + rewrite getBitsSigned_state. apply getBits_wf, IH.
    + apply skipToNextByte_wf, IH.
    + destruct IH as (_ & Hn & _). unfold bs_wf, reset, cursor_pos; cbn. lia.
Qed.

(** [skipToNextByte] moves a well-formed reader to the first byte
    boundary at or after its position, and counts every skipped bit off
    [bits_available]: position plus available bits is unchanged. *)
Theorem skipToNextByte_spec b :
  bs_wf b ->
  let c' := cur (fst (skipToNextByte b)) in
  bit_offset c' = 7%nat /\ (cursor_pos c' mod 8 = 0)%nat /\
  (cursor_pos (cur b) <= cursor_pos c' < cursor_pos (cur b) + 8)%nat /\
  (cursor_pos c' + bits_available c' = cursor_pos (cur b) + bits_available (cur b))%nat.
Proof.
  intros (Ho & Hn & Hp). unfold skipToNextByte, cursor_pos in *.
  destruct (Nat.eqb_spec (bit_offset (cur b)) 7) as [E|E];
    cbn [fst cur with_cur p bit_offset bits_available].
  - rewrite E. replace (8 * p (cur b) + (7 - 7))%nat with (p (cur b) * 8)%nat by lia.
    rewrite Nat.Div0.mod_mul. lia.
  - replace (8 * S (p (cur b)) + (7 - 7))%nat with (S (p (cur b)) * 8)%nat by lia.
    rewrite Nat.Div0.mod_mul. lia.
Qed.

(** The signed read interprets the field in two's complement: the
    result lies in [-2^(n-1), 2^(n-1)) and is congruent to the unsigned
    field modulo [2^n]. *)
Theorem getBitsSigned_range n b b' u :
  (1 <= n)%nat -> getBits n b = (b', inr u) ->
  getBitsSigned n b = (b', inr (sign_extend n u)) /\
  - 2 ^ (Z.of_nat n - 1) <= sign_extend n u < 2 ^ (Z.of_nat n - 1) /\
  sign_extend n u mod 2 ^ Z.of_nat n = u.
Proof.
  intros Hn Hget. unfold getBitsSigned, st_bind. rewrite Hget. split; [reflexivity|].
  unfold getBits in Hget. destruct (read_bits (start b) n (cur b)) as [c r] eqn:E.
  injection Hget as _ ->. apply read_bits_bounded in E.
  assert (Hpow : 2 ^ Z.of_nat n = 2 * 2 ^ (Z.of_nat n - 1)).
  { rewrite <- Z.pow_succ_r by lia. f_equal. lia. }
  pose proof (pow2_pos (Z.of_nat n - 1) ltac:(lia)).
  unfold sign_extend. destruct (Nat.ltb_spec 0 n); [|lia].
  destruct (Z.leb_spec (2 ^ (Z.of_nat n - 1)) u); cbn [andb].
  - split; [lia|]. replace (u - 2 ^ Z.of_nat n) with (u + (-1) * 2 ^ Z.of_nat n) by ring.
    rewrite Z.mod_add by lia. apply Z.mod_small; lia.
  - split; [lia|]. apply Z.mod_small; lia.
Qed.

(** ** Examples: the theorems on the reader of [bits.cc] *)

Lemma reachable_wf_witness :
  bs_wf (run_op Op_skipToNextByte (run_op (Op_getBits 6) (BitStream_new [0xF5; 0x15] 2))).
Proof.
  apply reachable_wf. apply reachable_step, reachable_step, reachable_new. cbn; lia.
Defined.

Lemma skipToNextByte_spec_witness :
  let b := fst (getBits 6 (BitStream_new [0xF5; 0x15] 2)) in
  bs_wf b /\ bit_offset (cur (fst (skipToNextByte b))) = 7%nat /\
  (cursor_pos (cur (fst (skipToNextByte b))) mod 8 = 0)%nat.
Proof.
  intros b. assert (Hwf : bs_wf b) by (repeat split; vm_compute; lia).
  destruct (skipToNextByte_spec b Hwf) as (H1 & H2 & _).
  split; [exact Hwf|split; [exact H1|exact H2]].
Defined.

Lemma getBitsSigned_range_witness :
  getBitsSigned 3 (BitStream_new [0xF5] 1) =
    (fst (getBits 3 (BitStream_new [0xF5] 1)), inr (sign_extend 3 7)) /\ sign_extend 3 7 = -1.
Proof.
  split; [|reflexivity].
  refine (proj1 (getBitsSigned_range 3 (BitStream_new [0xF5] 1) _ 7 _ _));
    [lia | vm_compute; reflexivity].
Defined.
