(* ===== verification/BitWriter.v ===== *)
(** * The bit writer ([BitWriter])

    [BitWriter] keeps the pending byte [ch] and its free-bit offset and
    points to a pipeline (specification, section 4.4).  Its state during
    a call is the [wstate] of [Bits]: the pending byte, the offset, and
    the state of the pipeline it points to, which a caller that shares
    the pipeline (as [bits.cc] does) keeps in one place.  [flush] pads
    the pending byte with zero bits and emits it, and does nothing when
    no bit is pending.  The write/read round trips tie [BitWriter] to
    [BitStream]. *)

From S2P Require Import Prelude BitList Codec Pipeline Bits BitStream.
From Stdlib Require Import ZArith List Lia Bool.
Import ListNotations.
Open Scope qpdf_scope.
Open Scope Z_scope.

Section Methods.
Context {P : Type} `{Pipeline P}.

Definition BitWriter_new (pl : P) : wstate P := mk_wstate 0 7 pl.

Definition writeBits (val : Z) (bits : nat) : st (wstate P) unit :=
  write_bits val bits.

(** The [int] argument is converted to [unsigned long long]. *)
Definition writeBitsInt (val : Z) (bits : nat) : st (wstate P) unit :=
  write_bits (val mod 2 ^ 64) bits.

(** Two's complement: the value modulo [2 ^ bits]. *)
Definition writeBitsSigned (val : Z) (bits : nat) : st (wstate P) unit :=
  write_bits (val mod 2 ^ Z.of_nat bits) bits.

Definition flush : st (wstate P) unit :=
  fun s => if Nat.ltb (w_bit_offset s) 7
           then write_bits 0 (w_bit_offset s + 1) s
           else (s, inr tt).

End Methods.

(** ** The offset after a write, for any pipeline *)

Lemma write_loop_offset {P} `{Pipeline P} : forall fuel v n (s s' : wstate P),
  (w_bit_offset s <= 7)%nat -> (n <= fuel)%nat -> write_loop fuel v n s = (s', inr tt) ->
  (w_bit_offset s' <= 7)%nat /\
  (7 - w_bit_offset s' = (7 - w_bit_offset s + n) mod 8)%nat.
Proof.
  induction fuel as [|fuel IH]; intros v n [c off pl] s' Hoff Hn Hrun;
    cbn [write_loop w_bit_offset ch w_pl] in *.
  { injection Hrun as <-. cbn [w_bit_offset]. replace n with 0%nat by lia.
    rewrite Nat.add_0_r, Nat.mod_small; lia. }
  destruct (Nat.eqb_spec n 0) as [->|Hn0].
  { injection Hrun as <-. cbn [w_bit_offset]. rewrite Nat.add_0_r, Nat.mod_small; lia. }
  destruct (Nat.eqb_spec (off + 1 - Nat.min n (off + 1)) 0) as [Hl|Hl].
  - destruct (pl_write _ pl) as [e|pl']; [discriminate|].
    apply IH in Hrun as [Ho' Hp']; cbn [w_bit_offset] in *; try lia.
    split; [exact Ho'|]. rewrite Hp'.
    replace (7 - off + n)%nat with ((n - Nat.min n (off + 1)) + 1 * 8)%nat by lia.
    now rewrite Nat.Div0.mod_add.
  - apply IH in Hrun as [Ho' Hp']; cbn [w_bit_offset] in *; try lia.
    split; [exact Ho'|]. rewrite Hp'. f_equal. lia.
Qed.

(** ** Properties of [BitWriter] *)

Lemma flush_correct (s : wstate recorder) :
  wstate_wf s ->
  exists s', flush s = (s', inr tt) /\ wstate_wf s' /\ w_bit_offset s' = 7%nat /\
    bytes_to_bits (recorded (w_pl s')) =
    written_bits s ++ repeat false (if Nat.eqb (w_bit_offset s) 7 then 0 else w_bit_offset s + 1).
Proof.
  intros Hwf. pose proof Hwf as (Hoff & _). unfold flush.
  destruct (Nat.ltb_spec (w_bit_offset s) 7).
  - destruct (write_loop_spec (w_bit_offset s + 1) 0 (w_bit_offset s + 1) s Hwf (le_n _))
      as (s' & Hrun & Hwf' & Hbits).
    pose proof (write_loop_offset _ _ _ _ _ Hoff (le_n _) Hrun) as [Ho7 Ho'].
    replace (7 - w_bit_offset s + (w_bit_offset s + 1))%nat with (1 * 8)%nat in Ho' by lia.
    rewrite Nat.Div0.mod_mul in Ho'.
    exists s'. split; [exact Hrun|]. split; [exact Hwf'|]. split; [lia|].
    destruct (Nat.eqb_spec (w_bit_offset s) 7); [lia|].
    rewrite <- to_bits_zero, <- Hbits. unfold written_bits, pending.
    replace (7 - w_bit_offset s')%nat with 0%nat by lia. cbn [to_bits]. symmetry; apply app_nil_r.
  - exists s. split; [reflexivity|]. split; [exact Hwf|]. split; [lia|].
    unfold written_bits, pending. replace (w_bit_offset s) with 7%nat by lia.
    cbn [Nat.eqb repeat Nat.sub to_bits]. rewrite !app_nil_r. reflexivity.
Qed.

(** On a well-formed writer over a recording pipeline, [flush]
    returns and leaves a well-formed writer at a byte boundary with no
    bit pending; it emits one byte, the pending bits padded with
    [bit_offset + 1] zero bits, when some bits were pending, and emits
    nothing otherwise. *)
Theorem flush_spec (s : wstate recorder) :
  wstate_wf s ->
  exists s', flush s = (s', inr tt) /\ wstate_wf s' /\ pending s' = [] /\
    bytes_to_bits (recorded (w_pl s')) =
      written_bits s ++ repeat false (if Nat.eqb (w_bit_offset s) 7 then 0 else w_bit_offset s + 1) /\
    length (recorded (w_pl s')) =
      (length (recorded (w_pl s)) + if Nat.eqb (w_bit_offset s) 7 then 0 else 1)%nat.
Proof.
  intros Hwf. destruct (flush_correct s Hwf) as (s' & Hrun & Hwf' & Ho & Hb).
  exists s'. split; [exact Hrun|]. split; [exact Hwf'|].
  split; [unfold pending; rewrite Ho; reflexivity|]. split; [exact Hb|].
  apply (f_equal (@length bool)) in Hb. unfold written_bits, pending in Hb.
  rewrite !length_app, !length_bytes_to_bits, length_to_bits, repeat_length in Hb.
  destruct Hwf as (Hoff & _). destruct (Nat.eqb_spec (w_bit_offset s) 7); lia.
Qed.

(** [flush] is idempotent on every pipeline: once a flush has
    succeeded, flushing again changes nothing and emits no byte. *)
Theorem flush_idempotent {P} `{Pipeline P} (s s' : wstate P) :
  (w_bit_offset s <= 7)%nat -> flush s = (s', inr tt) -> flush s' = (s', inr tt).
Proof.
  intros Hoff Hflush. unfold flush in *.
  destruct (Nat.ltb_spec (w_bit_offset s) 7).
  - apply write_loop_offset in Hflush as [Ho' Hp']; [|lia|lia].
    replace (7 - w_bit_offset s + (w_bit_offset s + 1))%nat with (1 * 8)%nat in Hp' by lia.
    rewrite Nat.Div0.mod_mul in Hp'.
    destruct (Nat.ltb_spec (w_bit_offset s') 7); [lia|reflexivity].
  - injection Hflush as <-. destruct (Nat.ltb_spec (w_bit_offset s) 7); [lia|reflexivity].
Qed.

(** ** Write/read round trips *)

(** A sequence of [writeBits] calls, and the matching [getBits] calls. *)
Fixpoint write_fields {P} `{Pipeline P} (fs : list (Z * nat)) : st (wstate P) unit :=
  match fs with
  | [] => st_ret tt
  | (v, w) :: fs' => writeBits v w ;; write_fields fs'
  end.

Fixpoint read_fields (ws : list nat) : st BitStream (list Z) :=
  match ws with
  | [] => st_ret []
  | w :: ws' => v <- getBits w ;; vs <- read_fields ws' ;; st_ret (v :: vs)
  end.

Definition field_bits (fs : list (Z * nat)) : list bool :=
  flat_map (fun '(v, w) => to_bits w v) fs.

Lemma field_bits_cons v w fs : field_bits ((v, w) :: fs) = to_bits w v ++ field_bits fs.
Proof. reflexivity. Qed.

Lemma write_fields_spec : forall fs (s : wstate recorder),
  wstate_wf s ->
  exists s', write_fields fs s = (s', inr tt) /\ wstate_wf s' /\
             written_bits s' = written_bits s ++ field_bits fs.
Proof.
  induction fs as [|[v w] fs IH]; intros s Hwf.
  { exists s. rewrite app_nil_r. auto. }
  destruct (write_loop_spec w v w s Hwf (le_n _)) as (s1 & Hrun1 & Hwf1 & Hb1).
  destruct (IH s1 Hwf1) as (s2 & Hrun2 & Hwf2 & Hb2).
  exists s2. cbn [write_fields]. unfold st_bind, writeBits, write_bits. rewrite Hrun1, Hrun2.
  split; [reflexivity|split; [exact Hwf2|]].
  rewrite Hb2, Hb1, field_bits_cons, app_assoc. reflexivity.
Qed.

Lemma read_fields_spec : forall fs b,
  bs_wf b -> (length (field_bits fs) <= bits_available (cur b))%nat ->
  window (bytes_to_bits (start b)) (cursor_pos (cur b)) (length (field_bits fs)) = field_bits fs ->
  exists b', read_fields (map snd fs) b = (b', inr (map (fun '(v, w) => v mod 2 ^ Z.of_nat w) fs)).
Proof.
  induction fs as [|[v w] fs IH]; intros b Hwf Hlen Hwin.
  { exists b. reflexivity. }
  rewrite field_bits_cons, length_app, length_to_bits in *.
  pose proof (getBits_wf w b Hwf) as Hwf1.
  cbn [read_fields map snd]. unfold st_bind, st_ret.
  unfold getBits in Hwf1 |- *. rewrite read_bits_correct in Hwf1 |- * by (auto using bs_wf_cursor; lia).
  cbn [fst] in Hwf1.
  edestruct (IH (with_cur (cursor_at (cursor_pos (cur b) + w) (bits_available (cur b) - w)) b))
    as (b' & Hrd); [exact Hwf1| | |].
  - cbn [cur with_cur]. rewrite cursor_at_avail. lia.
  - cbn [cur with_cur start]. rewrite cursor_pos_at, window_skipn, Hwin.
    rewrite skipn_app, length_to_bits, Nat.sub_diag, skipn_all2 by (rewrite length_to_bits; lia).
    reflexivity.
  - exists b'. rewrite Hrd. do 3 f_equal.
    rewrite (window_firstn _ _ w (length (field_bits fs))), Hwin, firstn_app, length_to_bits.
    rewrite Nat.sub_diag, firstn_O, app_nil_r, firstn_all2 by (rewrite length_to_bits; lia).
    apply bits_to_Z_to_bits.
Qed.

Lemma roundtrip_mod fs :
  exists s, (write_fields fs ;; flush) (BitWriter_new (mk_recorder [])) = (s, inr tt) /\
    let bytes := recorded (w_pl s) in
    snd (read_fields (map snd fs) (BitStream_new bytes (length bytes)))
    = inr (map (fun '(v, w) => v mod 2 ^ Z.of_nat w) fs).
Proof.
  assert (Hwf0 : wstate_wf (BitWriter_new (mk_recorder []))) by (repeat split; cbn; lia).
  destruct (write_fields_spec fs _ Hwf0) as (s1 & Hrun1 & Hwf1 & Hb1).
  destruct (flush_correct s1 Hwf1) as (s2 & Hrun2 & _ & _ & Hb2).
  exists s2. unfold st_bind. rewrite Hrun1, Hrun2. split; [reflexivity|]. cbv zeta.
  rewrite Hb1 in Hb2. change (written_bits (BitWriter_new (mk_recorder []))) with (@nil bool) in Hb2.
  rewrite app_nil_l in Hb2.
  set (bytes := recorded (w_pl s2)) in *.
  assert (Hlen : length (bytes_to_bits bytes) = (8 * length bytes)%nat) by apply length_bytes_to_bits.
  rewrite Hb2, length_app in Hlen.
  edestruct (read_fields_spec fs (BitStream_new bytes (length bytes))) as (b' & ->);
    [| | |reflexivity].
  - unfold bs_wf, BitStream_new, reset, with_cur, cursor_pos.
    cbn [fst cur start nbytes p bit_offset bits_available]. lia.
  - cbn [BitStream_new reset with_cur fst cur bits_available nbytes]. lia.
  - cbn [BitStream_new reset with_cur fst start cur]. unfold cursor_pos. cbn [p bit_offset].
    rewrite Hb2. unfold window. cbn [Nat.mul Nat.add Nat.sub skipn].
    rewrite firstn_app, Nat.sub_diag, firstn_O, app_nil_r. apply firstn_all.
Qed.

(** Round trip: writing any sequence of fields [(v, w)], each [v]
    in [0, 2^w), with [writeBits] and then [flush], and reading the
    emitted bytes back with a fresh [BitStream] and [getBits w] for each
    width in turn, succeeds and returns exactly the values written. *)
Theorem write_read_roundtrip fs :
  Forall (fun '(v, w) => 0 <= v < 2 ^ Z.of_nat w) fs ->
  exists s, (write_fields fs ;; flush) (BitWriter_new (mk_recorder [])) = (s, inr tt) /\
    let bytes := recorded (w_pl s) in
    snd (read_fields (map snd fs) (BitStream_new bytes (length bytes))) = inr (map fst fs).
Proof.
  intros Hfs. destruct (roundtrip_mod fs) as (s & Hrun & Hrd). exists s.
  split; [exact Hrun|]. cbv zeta in *. rewrite Hrd. f_equal. clear Hrun Hrd.
  induction Hfs as [|[v w] fs Hv _ IH]; [reflexivity|].
  cbn [map fst]. rewrite IH, Z.mod_small by exact Hv. reflexivity.
Qed.

Fixpoint write_fields_signed {P} `{Pipeline P} (fs : list (Z * nat)) : st (wstate P) unit :=
  match fs with
  | [] => st_ret tt
  | (v, w) :: fs' => writeBitsSigned v w ;; write_fields_signed fs'
  end.

Fixpoint read_fields_signed (ws : list nat) : st BitStream (list Z) :=
  match ws with
  | [] => st_ret []
  | w :: ws' => v <- getBitsSigned w ;; vs <- read_fields_signed ws' ;; st_ret (v :: vs)
  end.

Definition to_unsigned_fields (fs : list (Z * nat)) : list (Z * nat) :=
  map (fun '(v, w) => (v mod 2 ^ Z.of_nat w, w)) fs.

Lemma write_fields_signed_eq {P} `{Pipeline P} : forall fs (s : wstate P),
  write_fields_signed fs s = write_fields (to_unsigned_fields fs) s.
Proof.
  induction fs as [|[v w] fs IH]; intros s; [reflexivity|].
  cbn [write_fields_signed write_fields to_unsigned_fields map]. unfold st_bind, writeBitsSigned, writeBits.
  destruct (write_bits _ w s) as [s1 [e|u]]; [reflexivity|apply IH].
Qed.

Lemma read_fields_signed_spec : forall ws b b' us,
  read_fields ws b = (b', inr us) ->
  read_fields_signed ws b = (b', inr (map (fun '(w, u) => sign_extend w u) (combine ws us))).
Proof.
  induction ws as [|w ws IH]; intros b b' us Hrd; cbn [read_fields read_fields_signed] in *.
  { injection Hrd as <- <-. reflexivity. }
  unfold getBitsSigned, st_bind, st_ret in *.
  destruct (getBits w b) as [b1 [e|u]]; [discriminate|].
  destruct (read_fields ws b1) as [b2 [e|us']] eqn:E; [discriminate|].
  injection Hrd as <- <-. rewrite (IH _ _ _ E). reflexivity.
Qed.

(** Two's complement over [n] bits is the inverse of reduction modulo
    [2^n] on the representable range. *)
Lemma sign_extend_mod n v :
  (1 <= n)%nat -> - 2 ^ (Z.of_nat n - 1) <= v < 2 ^ (Z.of_nat n - 1) ->
  sign_extend n (v mod 2 ^ Z.of_nat n) = v.
Proof.
  intros Hn Hv.
  assert (Hpow : 2 ^ Z.of_nat n = 2 * 2 ^ (Z.of_nat n - 1)).
  { rewrite <- Z.pow_succ_r by lia. f_equal. lia. }
  pose proof (pow2_pos (Z.of_nat n - 1) ltac:(lia)).
  unfold sign_extend. destruct (Nat.ltb_spec 0 n); [|lia]. cbn [andb].
  destruct (Z.le_gt_cases 0 v).
  - rewrite Z.mod_small by lia. destruct (Z.leb_spec (2 ^ (Z.of_nat n - 1)) v); lia.
  - replace (v mod 2 ^ Z.of_nat n) with (v + 2 ^ Z.of_nat n).
    + destruct (Z.leb_spec (2 ^ (Z.of_nat n - 1)) (v + 2 ^ Z.of_nat n)); lia.
    + rewrite <- Z.mod_add with (b := 1) by lia. rewrite Z.mod_small; lia.
Qed.

(** Signed round trip: writing fields [(v, w)] with
    [writeBitsSigned], each [v] in the range [-2^(w-1), 2^(w-1)) of a
    [w]-bit two's-complement field, then [flush], and reading the bytes
    back with [getBitsSigned w] returns exactly the values written. *)
Theorem signed_roundtrip fs :
  Forall (fun '(v, w) => (1 <= w)%nat /\ - 2 ^ (Z.of_nat w - 1) <= v < 2 ^ (Z.of_nat w - 1)) fs ->
  exists s, (write_fields_signed fs ;; flush) (BitWriter_new (mk_recorder [])) = (s, inr tt) /\
    let bytes := recorded (w_pl s) in
    snd (read_fields_signed (map snd fs) (BitStream_new bytes (length bytes))) = inr (map fst fs).
Proof.
  intros Hfs. destruct (roundtrip_mod (to_unsigned_fields fs)) as (s & Hrun & Hrd).
  exists s. unfold st_bind in *. rewrite write_fields_signed_eq. split; [exact Hrun|]. cbv zeta in *.
  replace (map snd (to_unsigned_fields fs)) with (map snd fs) in Hrd
    by (unfold to_unsigned_fields; rewrite map_map; apply map_ext; intros [v w]; reflexivity).
  destruct (read_fields (map snd fs) _) as [b' r] eqn:E. cbn [snd] in Hrd. subst r.
  rewrite (read_fields_signed_spec _ _ _ _ E). cbn [snd]. f_equal.
  clear E Hrun. unfold to_unsigned_fields. rewrite map_map.
  induction Hfs as [|[v w] fs [Hw Hv] _ IH]; [reflexivity|].
  cbn [map combine fst snd]. rewrite IH, Z.mod_mod, sign_extend_mod by lia. reflexivity.
Qed.

(** ** Writing into a [Pl_Buffer]

    [bits.cc] writes into a [Pl_Buffer]; the theorems above are proved
    over a recording pipeline.  A writer over a buffer and a writer over
    a recorder holding the same bytes, with the same pending byte and
    offset, stay related through every operation of the writer, with the
    same results. *)
Section BufferSink.
Context `{Codec}.

Definition buf_rel (s : wstate stage) (t : wstate recorder) : Prop :=
  ch s = ch t /\ w_bit_offset s = w_bit_offset t /\
  exists rd, w_pl s = Pl_Buffer (recorded (w_pl t)) rd.

Definition buf_sim {A} (m1 : st (wstate stage) A) (m2 : st (wstate recorder) A) : Prop :=
  forall s t, buf_rel s t -> buf_rel (fst (m1 s)) (fst (m2 t)) /\ snd (m1 s) = snd (m2 t).

Lemma buf_sim_bind {A B} (m1 : st (wstate stage) A) m2 (k1 : A -> st (wstate stage) B) k2 :
  buf_sim m1 m2 -> (forall a, buf_sim (k1 a) (k2 a)) -> buf_sim (st_bind m1 k1) (st_bind m2 k2).
Proof.
  intros Hm Hk s t Hst. unfold st_bind.
  destruct (Hm s t Hst) as [Hrel Hres].
  destruct (m1 s) as [s1 [e|a]], (m2 t) as [t1 r2]; cbn in Hrel, Hres; subst r2; [split; auto|].
  apply Hk, Hrel.
Qed.

Lemma buf_sim_ret {A} (a : A) : buf_sim (st_ret a) (st_ret a).
Proof. intros s t Hst. split; [exact Hst|reflexivity]. Qed.

Lemma write_bits_buf_sim v n : buf_sim (write_bits v n) (write_bits v n).
Proof.
  intros s t Hst.
  set (R := fun (q : stage) (r : recorder) => exists rd, q = Pl_Buffer (recorded r) rd).
  assert (Hsim : forall q r b, R q r -> res_rel R (pl_write [b] q) (pl_write [b] r)).
  { intros q r b [rd ->]. cbn. exists false. reflexivity. }
  exact (write_loop_sim R Hsim n v n s t Hst).
Qed.

Lemma write_fields_buf_sim fs : buf_sim (write_fields fs) (write_fields fs).
Proof.
  induction fs as [|[v w] fs IH]; cbn [write_fields]; [apply buf_sim_ret|].
  apply buf_sim_bind; [apply write_bits_buf_sim | intros _; exact IH].
Qed.

Lemma write_fields_signed_buf_sim fs : buf_sim (write_fields_signed fs) (write_fields_signed fs).
Proof. intros s t Hst. rewrite !write_fields_signed_eq. apply write_fields_buf_sim, Hst. Qed.

Lemma flush_buf_sim : buf_sim flush flush.
Proof.
  intros s t Hst. pose proof Hst as (_ & Ho & _). unfold flush. rewrite Ho.
  destruct (Nat.ltb (w_bit_offset t) 7); [apply write_bits_buf_sim, Hst|].
  split; [exact Hst|reflexivity].
Qed.

(** The buffer and the recorder start from the same bytes. *)
Lemma buf_rel_new data rd : buf_rel (BitWriter_new (Pl_Buffer data rd)) (BitWriter_new (mk_recorder data)).
Proof. split; [reflexivity|split; [reflexivity|exists rd; reflexivity]]. Qed.

(** A writer over a [Pl_Buffer] holding only bytes, with a
    well-formed pending byte. *)
Definition buffer_ok (s : wstate stage) : Prop :=
  wstate_wf s /\ exists data rd, w_pl s = Pl_Buffer data rd /\ Forall is_byte data.

(** The recorder-side condition: the method always returns and keeps a
    well-formed writer whose recorded bytes are bytes. *)
Definition recorder_ok (m : st (wstate recorder) unit) : Prop :=
  forall t, wstate_wf t -> Forall is_byte (recorded (w_pl t)) ->
  exists t', m t = (t', inr tt) /\ wstate_wf t' /\ Forall is_byte (recorded (w_pl t')).

Lemma buf_sim_ok m m' :
  buf_sim m m' -> recorder_ok m' ->
  forall s, buffer_ok s -> exists s', m s = (s', inr tt) /\ buffer_ok s'.
Proof.
  intros Hsim Hm s (Hwf & data & rd & Hp & Hb).
  set (t := mk_wstate (ch s) (w_bit_offset s) (mk_recorder data)).
  assert (Hrel : buf_rel s t) by (split; [reflexivity|split; [reflexivity|exists rd; exact Hp]]).
  destruct (Hm t Hwf Hb) as (t' & Hrun & Hwf' & Hb').
  destruct (Hsim s t Hrel) as [(Hc & Ho & rd' & Hp') Hres]. rewrite Hrun in Hc, Ho, Hp', Hres.
  destruct (m s) as [s' r]. cbn [fst snd] in *. subst r. exists s'. split; [reflexivity|].
  split; [|exists (recorded (w_pl t')), rd'; auto].
  unfold wstate_wf. rewrite Hc, Ho. exact Hwf'.
Qed.

Lemma write_bits_recorder_ok v n : recorder_ok (write_bits v n).
Proof.
  intros t Hwf Hb. destruct (write_loop_spec n v n t Hwf (le_n n)) as (t' & Hrun & Hwf' & _).
  exists t'. split; [exact Hrun|]. split; [exact Hwf'|]. exact (write_loop_bytes _ _ _ _ _ _ Hwf Hb Hrun).
Qed.

Lemma flush_recorder_ok : recorder_ok flush.
Proof.
  intros t Hwf Hb. unfold flush. destruct (Nat.ltb _ 7); [|exists t; auto].
  apply write_bits_recorder_ok; assumption.
Qed.

End BufferSink.

(** ** Examples: the theorems on the values of the [BitWriter] block of [bits.cc] *)

Lemma flush_spec_witness :
  exists s', flush (mk_wstate 0xF0 2 (mk_recorder [0xAB])) = (s', inr tt) /\
    length (recorded (w_pl s')) = 2%nat.
Proof.
  destruct (flush_spec (mk_wstate 0xF0 2 (mk_recorder [0xAB]))) as (s' & Hrun & _ & _ & _ & Hlen).
  - unfold wstate_wf; cbn. split; [lia|split; [lia|reflexivity]].
  - exists s'. split; [exact Hrun|exact Hlen].
Defined.

Lemma flush_idempotent_witness :
  flush (mk_wstate 0 7 (mk_recorder [0xF0])) = (mk_wstate 0 7 (mk_recorder [0xF0]), inr tt).
Proof.
  apply (flush_idempotent (mk_wstate 0xF0 2 (mk_recorder []))); [cbn; lia | vm_compute; reflexivity].
Defined.

Lemma write_read_roundtrip_witness :
  exists s, (write_fields [(30, 5%nat); (10, 4%nat); (10, 6%nat); (357, 9%nat)] ;; flush)
              (BitWriter_new (mk_recorder [])) = (s, inr tt) /\
    let bytes := recorded (w_pl s) in
    snd (read_fields [5; 4; 6; 9]%nat (BitStream_new bytes (length bytes))) = inr [30; 10; 10; 357].
Proof.
  apply (write_read_roundtrip [(30, 5%nat); (10, 4%nat); (10, 6%nat); (357, 9%nat)]).
  repeat apply Forall_cons; try apply Forall_nil; cbn; lia.
Defined.

Lemma signed_roundtrip_witness :
  exists s, (write_fields_signed [(-1, 3%nat); (-12, 6%nat); (-4, 3%nat); (-1, 1%nat)] ;; flush)
              (BitWriter_new (mk_recorder [])) = (s, inr tt) /\
    let bytes := recorded (w_pl s) in
    snd (read_fields_signed [3; 6; 3; 1]%nat (BitStream_new bytes (length bytes))) = inr [-1; -12; -4; -1].
Proof.
  apply (signed_roundtrip [(-1, 3%nat); (-12, 6%nat); (-4, 3%nat); (-1, 1%nat)]).
  repeat apply Forall_cons; try apply Forall_nil; cbn; lia.
Defined.
