(* ===== verification/TestBits.v ===== *)
(** * The test program [src/libtests/bits.cc]

    [test] reads the eight bytes [F5 15 65 79 12 89 75 4B] with
    [read_bits] through the locals [p], [bit_offset] and
    [bits_available], then through a [BitStream]; it writes the same bits
    back with [write_bits] through the locals [ch] and [bit_offset] into
    the [Pl_Buffer] [bp], and then through a [BitWriter] pointing to the
    same [bp].  The locals, the buffer object, the reader, the writer and
    standard output form the state [world]; [bp] is one field, shared by
    the [write_bits] calls, [bw] and [print_buffer].  A printed line is a
    value of [line].  The theorems describe each helper of [bits.cc] on
    every world and the round trips through the shared buffer. *)

From S2P Require Import Prelude BitList Codec Pipeline Bits BitStream BitWriter.
From Stdlib Require Import ZArith List Lia Bool.
Import ListNotations.
Open Scope qpdf_scope.
Open Scope Z_scope.

(** ** Output *)
Inductive line : Type :=
| Values (byte_offset : Z) (bit_offset bits_available : nat)
    (** "byte offset = .., bit offset = .., bits available = .." *)
| Bits_read (bits_wanted : nat) (result : Z)   (** "bits read: .., result = .." *)
| Exception (e : exn)                         (** "exception: " e.what() *)
| Number (n : Z)                              (** a number on its own line *)
| Write_state (ch : Z) (bit_offset : nat)     (** "ch = .., bit_offset = .." *)
| Buffer_bytes (bs : list Z)                  (** the bytes, in hex, on one line *)
| Blank                                       (** an empty line *)
| Unexpected (e : exn)                        (** "unexpected exception: " e.what() *)
| Done.                                       (** "done" *)

(** ** State *)
Record world : Type := mk_world {
  t_p : nat;                (** [p], as an index into [buf] *)
  t_bit_offset : nat;       (** [bit_offset], shared by the read and write tests *)
  t_bits_available : nat;
  t_ch : Z;
  t_bp : stage;             (** the [Pl_Buffer] object [*bp] *)
  t_b : BitStream;
  t_bw_ch : Z;              (** [bw]'s pending byte and offset; its pipeline is [*bp] *)
  t_bw_bit_offset : nat;
  t_out : list line
}.

Definition set_cursor (c : cursor) (w : world) : world :=
  mk_world (p c) (bit_offset c) (bits_available c) (t_ch w) (t_bp w) (t_b w)
    (t_bw_ch w) (t_bw_bit_offset w) (t_out w).

Definition get_cursor (w : world) : cursor := mk_cursor (t_p w) (t_bit_offset w) (t_bits_available w).

Definition set_writer (s : wstate stage) (w : world) : world :=
  mk_world (t_p w) (w_bit_offset s) (t_bits_available w) (ch s) (w_pl s) (t_b w)
    (t_bw_ch w) (t_bw_bit_offset w) (t_out w).

Definition get_writer (w : world) : wstate stage := mk_wstate (t_ch w) (t_bit_offset w) (t_bp w).

Definition set_bw (s : wstate stage) (w : world) : world :=
  mk_world (t_p w) (t_bit_offset w) (t_bits_available w) (t_ch w) (w_pl s) (t_b w)
    (ch s) (w_bit_offset s) (t_out w).

Definition get_bw (w : world) : wstate stage := mk_wstate (t_bw_ch w) (t_bw_bit_offset w) (t_bp w).

Definition set_b (b : BitStream) (w : world) : world :=
  mk_world (t_p w) (t_bit_offset w) (t_bits_available w) (t_ch w) (t_bp w) b
    (t_bw_ch w) (t_bw_bit_offset w) (t_out w).

Definition set_bp (bp : stage) (w : world) : world :=
  mk_world (t_p w) (t_bit_offset w) (t_bits_available w) (t_ch w) bp (t_b w)
    (t_bw_ch w) (t_bw_bit_offset w) (t_out w).

(** Lines appended to standard output. *)
Definition with_out (ls : list line) (w : world) : world :=
  mk_world (t_p w) (t_bit_offset w) (t_bits_available w) (t_ch w) (t_bp w) (t_b w)
    (t_bw_ch w) (t_bw_bit_offset w) (t_out w ++ ls).

Definition emit (l : line) : st world unit := fun w => (with_out [l] w, inr tt).

Definition st_lift {S A} (m : exn + A) : st S A := fun s => (s, m).

Section BitsTest.
Context `{Codec}.

(** ** The helpers of [bits.cc] *)

Definition print_values (byte_offset : Z) (bit_offset bits_available : nat) : st world unit :=
  emit (Values byte_offset bit_offset bits_available).

(** [print_values(p - buf, bit_offset, bits_available)]. *)
Definition show_values : st world unit :=
  w <- st_get ;; print_values (Z.of_nat (t_p w)) (t_bit_offset w) (t_bits_available w).

Definition buf : list Z := [0xF5; 0x15; 0x65; 0x79; 0x12; 0x89; 0x75; 0x4B].

(** [QIntC::to_ulong] on the [unsigned long long] [read_bits] returns:
    the value itself when it fits in an [unsigned long], 64 bits wide on
    the LP64 platforms the tests run on, a range error otherwise. *)
Definition to_ulong (v : Z) : exn + Z :=
  if (0 <=? v) && (v <? 2 ^ 64) then inr v else inl (Range_error v).

Definition test_read_bits (bits_wanted : nat) : st world unit :=
  raw <- st_focus get_cursor set_cursor (read_bits buf bits_wanted) ;;
  result <- st_lift (to_ulong raw) ;;
  emit (Bits_read bits_wanted result) ;;
  show_values.

Definition test_write_bits (val : Z) (bits : nat) : st world unit :=
  st_focus get_writer set_writer (write_bits val bits) ;;
  w <- st_get ;;
  emit (Write_state (t_ch w) (t_bit_offset w)).

(** [bp->finish()], [getBuffer()], print the bytes, [delete b]. *)
Definition print_buffer : st world unit :=
  w <- st_get ;;
  bp1 <- st_lift (pl_finish (t_bp w)) ;;
  st_modify (set_bp bp1) ;;
  r <- st_lift (getBuffer bp1) ;;
  st_modify (set_bp (snd r)) ;;
  match fst r with
  | [] => st_ret tt
  | bytes => emit (Buffer_bytes bytes)
  end ;;
  emit Blank.

(** The lines [print_buffer] prints for the bytes [bs]: the bytes on
    one line when there are any, then an empty line. *)
Definition buffer_lines (bs : list Z) : list line :=
  match bs with
  | [] => [Blank]
  | _ => [Buffer_bytes bs; Blank]
  end.

(** ** The blocks of [test()] *)

(** The [try]/[catch] of lines 86-91: the read, and on an exception its
    message and the cursor. *)
Definition read_exhaustion_test (bits_wanted : nat) : st world unit :=
  st_catch (test_read_bits bits_wanted) (fun e => emit (Exception e) ;; show_values).

Definition read_tests : st world unit :=
  st_modify (set_cursor (mk_cursor 0 7 64)) ;;
  show_values ;;
  test_read_bits 5 ;; test_read_bits 4 ;; test_read_bits 6 ;; test_read_bits 9 ;;
  test_read_bits 9 ;; test_read_bits 2 ;; test_read_bits 1 ;; test_read_bits 0 ;;
  test_read_bits 25 ;;
  read_exhaustion_test 4 ;;
  test_read_bits 3 ;;
  emit Blank.

Definition read32_tests : st world unit :=
  st_modify (set_cursor (mk_cursor 0 7 64)) ;;
  show_values ;;
  test_read_bits 32 ;; test_read_bits 32 ;;
  emit Blank.

Definition print_getBits (n : nat) : st world unit :=
  v <- st_focus t_b set_b (getBits n) ;; emit (Number v).

Definition print_getBitsSigned (n : nat) : st world unit :=
  v <- st_focus t_b set_b (getBitsSigned n) ;; emit (Number v).

Definition bitstream_getBits_tests : st world unit :=
  st_modify (set_b (BitStream_new buf 8)) ;;
  print_getBits 32 ;;
  st_focus t_b set_b reset ;;
  print_getBits 32 ;; print_getBits 32 ;;
  emit Blank.

Definition bitstream_skip_tests : st world unit :=
  st_focus t_b set_b reset ;;
  print_getBits 6 ;;
  st_focus t_b set_b skipToNextByte ;;
  print_getBits 8 ;;
  st_focus t_b set_b skipToNextByte ;;
  print_getBits 8 ;;
  emit Blank.

Definition bitstream_signed_tests : st world unit :=
  st_focus t_b set_b reset ;;
  print_getBitsSigned 3 ;; print_getBitsSigned 6 ;; print_getBitsSigned 5 ;;
  print_getBitsSigned 1 ;; print_getBitsSigned 17 ;;
  emit Blank.

Definition write_tests : st world unit :=
  st_modify (fun w => set_writer (mk_wstate 0 7 (Pl_Buffer [] false)) w) ;;
  test_write_bits 30 5 ;; test_write_bits 10 4 ;; test_write_bits 10 6 ;;
  test_write_bits 16059 0 ;; test_write_bits 357 9 ;;
  print_buffer ;;
  test_write_bits 242 9 ;; test_write_bits 0 2 ;; test_write_bits 1 1 ;;
  test_write_bits 5320361 25 ;; test_write_bits 3 3 ;;
  print_buffer ;;
  test_write_bits 4111820153 32 ;; test_write_bits 310998347 32 ;;
  print_buffer.

Definition bw_call (m : st (wstate stage) unit) : st world unit := st_focus get_bw set_bw m.

Definition bitwriter_tests : st world unit :=
  st_modify (fun w => set_bw (BitWriter_new (t_bp w)) w) ;;
  bw_call (writeBits 30 5) ;; bw_call flush ;; bw_call flush ;;
  bw_call (writeBitsInt 0xAB 8) ;; bw_call flush ;;
  print_buffer ;;
  bw_call (writeBitsSigned (-1) 3) ;; bw_call (writeBitsSigned (-12) 6) ;;
  bw_call (writeBitsSigned 4 3) ;; bw_call (writeBitsSigned (-4) 3) ;;
  bw_call (writeBitsSigned (-1) 1) ;; bw_call flush ;;
  print_buffer.

Definition test : st world unit :=
  read_tests ;; read32_tests ;;
  bitstream_getBits_tests ;; bitstream_skip_tests ;; bitstream_signed_tests ;;
  write_tests ;; bitwriter_tests.

Definition init_world : world :=
  mk_world 0 0 0 0 (Pl_Buffer [] false) (mk_BitStream [] 0 (mk_cursor 0 0 0)) 0 0 [].

(** [main]: run [test()], report an escaping exception and exit 2, or
    print "done" and exit 0. *)
Definition bits_main : list line * Z :=
  match test init_world with
  | (w, inl e) => (t_out w ++ [Unexpected e], 2)
  | (w, inr _) => (t_out w ++ [Done], 0)
  end.

End BitsTest.

(** Unfold a run of the helpers down to the state-passing code. *)
Ltac run_world :=
  unfold test_read_bits, test_write_bits, show_values, print_values, print_getBits,
    print_getBitsSigned, bw_call, st_bind, st_focus, st_get, st_ret, emit.

Section BitsProps.
Context `{Codec}.

(** ** How the helpers of [bits.cc] act on the world *)

Lemma with_out_app l1 l2 w : with_out l2 (with_out l1 w) = with_out (l1 ++ l2) w.
Proof. destruct w; unfold with_out; cbn. now rewrite app_assoc. Qed.

Lemma with_out_nil w : with_out [] w = w.
Proof. destruct w; unfold with_out; cbn. now rewrite app_nil_r. Qed.

Lemma set_get_cursor w : set_cursor (get_cursor w) w = w.
Proof. destruct w; reflexivity. Qed.

Lemma get_set_bw s w : get_bw (set_bw s w) = s.
Proof. destruct s; reflexivity. Qed.

Lemma set_bw_twice s s' w : set_bw s (set_bw s' w) = set_bw s w.
Proof. destruct w; reflexivity. Qed.

Lemma t_out_set_bw s w : t_out (set_bw s w) = t_out w.
Proof. reflexivity. Qed.

Lemma print_buffer_run w data rd :
  t_bp w = Pl_Buffer data rd ->
  print_buffer w = (with_out (buffer_lines data) (set_bp (Pl_Buffer [] true) w), inr tt).
Proof.
  intros Hbp. unfold print_buffer, st_bind, st_get, st_lift, st_modify, st_ret, emit.
  rewrite Hbp. cbn [pl_finish stage_pipeline stage_finish getBuffer fst snd].
  destruct data; destruct w; cbn; [reflexivity|]. unfold with_out; cbn. now rewrite <- app_assoc.
Qed.

(** A [BitWriter] built over [bp] (empty), two runs of methods on it,
    and [print_buffer]: the printed bytes are those a recording pipeline
    receives from the same methods. *)
Lemma bw_session (m1 m2 : st (wstate stage) unit) m1' m2' w rd s :
  buf_sim m1 m1' -> buf_sim m2 m2' -> t_bp w = Pl_Buffer [] rd ->
  (m1' ;; m2') (BitWriter_new (mk_recorder [])) = (s, inr tt) ->
  exists w', (st_modify (fun w => set_bw (BitWriter_new (t_bp w)) w) ;;
              bw_call m1 ;; bw_call m2 ;; print_buffer) w = (w', inr tt) /\
    t_out w' = t_out w ++ buffer_lines (recorded (w_pl s)).
Proof.
  intros H1 H2 Hbp Hrun.
  destruct (buf_sim_bind m1 m1' (fun _ => m2) (fun _ => m2') H1 (fun _ => H2) _ _ (buf_rel_new [] rd))
    as [Hrel Hres].
  rewrite Hrun in Hrel, Hres. cbn [fst snd] in Hrel, Hres. unfold st_bind in Hrel, Hres |- *.
  unfold st_modify, bw_call, st_focus. rewrite get_set_bw, Hbp.
  destruct (m1 (BitWriter_new (Pl_Buffer [] rd))) as [s1 [e|[]]] eqn:E1;
    rewrite ?E1 in Hrel, Hres; cbv iota beta in Hrel, Hres; [discriminate|].
  rewrite get_set_bw. destruct (m2 s1) as [s2 r2] eqn:E2. rewrite ?E2 in Hrel, Hres.
  cbn [fst snd] in Hrel, Hres. subst r2.
  destruct Hrel as (_ & _ & rd' & Hp).
  rewrite (print_buffer_run _ (recorded (w_pl s)) rd') by (destruct w; exact Hp).
  eexists; split; [reflexivity|]. destruct w; reflexivity.
Qed.

Lemma to_ulong_small v : 0 <= v < 2 ^ 64 -> to_ulong v = inr v.
Proof.
  intros Hv. unfold to_ulong.
  destruct (Z.leb_spec 0 v), (Z.ltb_spec v (2 ^ 64)); cbn [andb]; [reflexivity|lia..].
Qed.

(** A successful read of at most 64 bits fits in an [unsigned long]. *)
Lemma read_bits_to_ulong buf0 n c c' v :
  (n <= 64)%nat -> read_bits buf0 n c = (c', inr v) -> to_ulong v = inr v.
Proof.
  intros H64 E. apply read_bits_bounded in E. apply to_ulong_small.
  assert (2 ^ Z.of_nat n <= 2 ^ 64) by (apply Z.pow_le_mono_r; lia). lia.
Qed.

Lemma test_read_bits_run n w :
  test_read_bits n w =
    let '(c', r) := read_bits buf n (get_cursor w) in
    match r with
    | inl e => (set_cursor c' w, inl e)
    | inr v =>
        match to_ulong v with
        | inl e => (set_cursor c' w, inl e)
        | inr u => (with_out [Bits_read n u; Values (Z.of_nat (p c')) (bit_offset c') (bits_available c')]
                     (set_cursor c' w), inr tt)
        end
    end.
Proof.
  run_world. unfold st_lift. destruct (read_bits buf n (get_cursor w)) as [c' [e|v]]; [reflexivity|].
  destruct (to_ulong v) as [e|u]; [reflexivity|].
  destruct w; unfold with_out; cbn. now rewrite <- app_assoc.
Qed.

Lemma test_read_bits_step n w :
  cursor_wf buf (get_cursor w) -> (n <= t_bits_available w)%nat -> (n <= 64)%nat ->
  let c' := cursor_at (cursor_pos (get_cursor w) + n) (t_bits_available w - n) in
  test_read_bits n w =
    (with_out [Bits_read n (bits_to_Z (window (bytes_to_bits buf) (cursor_pos (get_cursor w)) n));
               Values (Z.of_nat (p c')) (bit_offset c') (bits_available c')] (set_cursor c' w), inr tt) /\
    cursor_wf buf c'.
Proof.
  intros Hwf Hn H64 c'. pose proof (read_bits_wf buf n _ Hwf) as Hwf'.
  pose proof (read_bits_correct buf (get_cursor w) n Hwf Hn) as E.
  rewrite test_read_bits_run, E. rewrite E in Hwf'.
  rewrite (read_bits_to_ulong _ _ _ _ _ H64 E). split; [reflexivity|exact Hwf'].
Qed.

Lemma test_read_bits_fail n w :
  (t_bits_available w < n)%nat -> test_read_bits n w = (w, inl (Exhaustion n (t_bits_available w))).
Proof.
  intros Hn. rewrite test_read_bits_run. unfold read_bits.
  destruct (Nat.ltb_spec (bits_available (get_cursor w)) n); [|cbn in *; lia].
  now rewrite set_get_cursor.
Qed.

(** One [test_write_bits] on the shared buffer, through the recording
    pipeline it simulates. *)
Lemma test_write_bits_step v n w data rd :
  wstate_wf (get_writer w) -> t_bp w = Pl_Buffer data rd -> Forall is_byte data ->
  exists c' off' data' rd',
    test_write_bits v n w =
      (with_out [Write_state c' off'] (set_writer (mk_wstate c' off' (Pl_Buffer data' rd')) w), inr tt) /\
    wstate_wf (mk_wstate c' off' tt) /\ Forall is_byte data' /\
    bytes_to_bits data' ++ pending (mk_wstate c' off' tt) =
      bytes_to_bits data ++ pending (get_writer w) ++ to_bits n v.
Proof.
  intros Hwf Hbp Hb.
  set (t := mk_wstate (t_ch w) (t_bit_offset w) (mk_recorder data)).
  assert (Hrel : buf_rel (get_writer w) t).
  { split; [reflexivity|split; [reflexivity|exists rd; exact Hbp]]. }
  destruct (write_bits_spec v n t Hwf) as (t' & Hrun & Hwf' & Hbits).
  pose proof (write_loop_bytes _ _ _ t _ _ Hwf Hb Hrun) as Hb'.
  destruct (write_bits_buf_sim v n _ _ Hrel) as [Hrel' Hres].
  rewrite Hrun in Hrel', Hres. cbn [fst snd] in Hrel', Hres.
  destruct (write_bits v n (get_writer w)) as [[c1 o1 p1] r] eqn:E.
  cbn [fst snd] in Hrel', Hres. subst r.
  destruct t' as [c2 o2 [d2]]. destruct Hrel' as (Hc & Ho & rd' & Hp). cbn in Hc, Ho, Hp, Hb'. subst.
  exists c2, o2, d2, rd'. split; [|split; [exact Hwf'|split; [exact Hb'|]]].
  - run_world. rewrite E. destruct w; reflexivity.
  - unfold written_bits in Hbits. cbn [w_pl recorded] in Hbits. rewrite <- app_assoc in Hbits.
    exact Hbits.
Qed.

(** ** Properties of the helpers of [bits.cc] *)

(** C1. [test_read_bits] over a well-formed cursor into [buf], with no
    more bits wanted than available: it reads the [n] bits at the cursor
    position, most significant first, prints them and the new cursor, and
    moves the locals [p], [bit_offset], [bits_available] exactly [n] bits
    on; nothing else of the world changes.  [n] is at most 64, the width
    of the [unsigned long long] [read_bits] returns. *)
Theorem test_read_bits_spec n w :
  cursor_wf buf (get_cursor w) -> (n <= t_bits_available w)%nat -> (n <= 64)%nat ->
  let c' := cursor_at (cursor_pos (get_cursor w) + n) (t_bits_available w - n) in
  test_read_bits n w =
    (with_out [Bits_read n (bits_to_Z (window (bytes_to_bits buf) (cursor_pos (get_cursor w)) n));
               Values (Z.of_nat (p c')) (bit_offset c') (bits_available c')] (set_cursor c' w),
     inr tt).
Proof. intros Hwf Hn H64. apply (test_read_bits_step n w Hwf Hn H64). Qed.

(** C2. The exhaustion path of the read block (lines 86-91): when more
    bits are wanted than are available, [test_read_bits] raises the
    exhaustion error before printing anything and without moving the
    cursor, so the handler prints the exception and then the unchanged
    cursor, and the block goes on from the same position. *)
Theorem read_exhaustion_handled n w :
  (t_bits_available w < n)%nat ->
  read_exhaustion_test n w =
    (with_out [Exception (Exhaustion n (t_bits_available w));
               Values (Z.of_nat (t_p w)) (t_bit_offset w) (t_bits_available w)] w, inr tt).
Proof.
  intros Hn. unfold read_exhaustion_test, st_catch. rewrite test_read_bits_fail by exact Hn.
  unfold st_bind, show_values, print_values, st_get, emit. destruct w; unfold with_out; cbn.
  now rewrite <- app_assoc.
Qed.

(** C3. [test_write_bits] into the shared [Pl_Buffer]: over a
    well-formed accumulator and a buffer of bytes it always returns,
    prints the new [ch] and [bit_offset], keeps [bp] a buffer of bytes,
    and the bytes of [bp] followed by the pending bits are the old ones
    followed by the [n] low bits of [v], most significant first. *)
Theorem test_write_bits_spec v n w data rd :
  wstate_wf (get_writer w) -> t_bp w = Pl_Buffer data rd -> Forall is_byte data ->
  exists c' off' data' rd',
    test_write_bits v n w =
      (with_out [Write_state c' off'] (set_writer (mk_wstate c' off' (Pl_Buffer data' rd')) w), inr tt) /\
    wstate_wf (mk_wstate c' off' tt) /\ Forall is_byte data' /\
    bytes_to_bits data' ++ pending (mk_wstate c' off' tt) =
      bytes_to_bits data ++ pending (get_writer w) ++ to_bits n v.
Proof. apply test_write_bits_step. Qed.

(** C4. Round trip through the shared buffer, as the [BitWriter] block
    of [bits.cc] does it: a [BitWriter] built over the empty [bp], any
    sequence of [writeBits v w] with each [v] in [0, 2^w), a [flush] and
    [print_buffer] print bytes from which a [BitStream] reads the values
    back with [getBits w], in order. *)
Theorem bw_roundtrip fs w rd :
  Forall (fun '(v, wd) => 0 <= v < 2 ^ Z.of_nat wd) fs -> t_bp w = Pl_Buffer [] rd ->
  exists bytes w',
    (st_modify (fun w => set_bw (BitWriter_new (t_bp w)) w) ;;
     bw_call (write_fields fs) ;; bw_call flush ;; print_buffer) w = (w', inr tt) /\
    t_out w' = t_out w ++ buffer_lines bytes /\
    snd (read_fields (map snd fs) (BitStream_new bytes (length bytes))) = inr (map fst fs).
Proof.
  intros Hfs Hbp. destruct (write_read_roundtrip fs Hfs) as (s & Hrun & Hrd).
  destruct (bw_session _ _ _ _ w rd s (write_fields_buf_sim fs) flush_buf_sim Hbp Hrun) as (w' & Hw & Ho).
  exists (recorded (w_pl s)), w'. auto.
Qed.

(** C5. Signed round trip through the shared buffer: [writeBitsSigned
    v w] with each [v] in [-2^(w-1), 2^(w-1)), a [flush] and
    [print_buffer] print bytes from which [getBitsSigned w] reads the
    values back, in order. *)
Theorem bw_signed_roundtrip fs w rd :
  Forall (fun '(v, wd) => (1 <= wd)%nat /\ - 2 ^ (Z.of_nat wd - 1) <= v < 2 ^ (Z.of_nat wd - 1)) fs ->
  t_bp w = Pl_Buffer [] rd ->
  exists bytes w',
    (st_modify (fun w => set_bw (BitWriter_new (t_bp w)) w) ;;
     bw_call (write_fields_signed fs) ;; bw_call flush ;; print_buffer) w = (w', inr tt) /\
    t_out w' = t_out w ++ buffer_lines bytes /\
    snd (read_fields_signed (map snd fs) (BitStream_new bytes (length bytes))) = inr (map fst fs).
Proof.
  intros Hfs Hbp. destruct (signed_roundtrip fs Hfs) as (s & Hrun & Hrd).
  destruct (bw_session _ _ _ _ w rd s (write_fields_signed_buf_sim fs) flush_buf_sim Hbp Hrun)
    as (w' & Hw & Ho).
  exists (recorded (w_pl s)), w'. auto.
Qed.

(** C6. [bw.flush()] twice in a row ([bits.cc], lines 157-158): once a
    flush of a writer with a valid offset has succeeded, a second one
    leaves the world unchanged and emits no byte into [bp]. *)
Theorem bw_flush_idempotent w w' :
  (t_bw_bit_offset w <= 7)%nat -> bw_call flush w = (w', inr tt) -> bw_call flush w' = (w', inr tt).
Proof.
  unfold bw_call, st_focus. intros Hoff Hw.
  destruct (flush (get_bw w)) as [s r] eqn:E. injection Hw as <- ->.
  rewrite get_set_bw, (flush_idempotent (get_bw w) s Hoff E), set_bw_twice. reflexivity.
Qed.

(** C7. [print_buffer] finishes [bp], prints its bytes (only the blank
    line when there are none) and leaves it empty and finished, so a
    second [print_buffer] prints only a blank line and later writes
    start a new buffer: each block of [bits.cc] prints only its own
    bytes. *)
Theorem print_buffer_resets w data rd :
  t_bp w = Pl_Buffer data rd ->
  (print_buffer ;; print_buffer) w =
    (with_out (buffer_lines data ++ [Blank]) (set_bp (Pl_Buffer [] true) w), inr tt).
Proof.
  intros Hbp. unfold st_bind at 1. rewrite (print_buffer_run w data rd Hbp).
  rewrite (print_buffer_run _ [] true) by (destruct w; reflexivity).
  destruct w; unfold with_out; cbn. now rewrite <- app_assoc.
Qed.

(** C10. [std::cout << b.getBits(n)] on a well-formed reader with at
    least [n] bits left prints the [n] bits at its position and moves the
    reader [n] bits on, keeping it well formed. *)
Theorem print_getBits_spec n w :
  bs_wf (t_b w) -> (n <= bits_available (cur (t_b w)))%nat ->
  let b := t_b w in
  let b' := with_cur (cursor_at (cursor_pos (cur b) + n) (bits_available (cur b) - n)) b in
  print_getBits n w =
    (with_out [Number (bits_to_Z (window (bytes_to_bits (start b)) (cursor_pos (cur b)) n))] (set_b b' w),
     inr tt) /\ bs_wf b'.
Proof.
  intros Hwf Hn b b'. pose proof (getBits_wf n b Hwf) as Hwf'.
  unfold getBits in Hwf'. rewrite read_bits_correct in Hwf' by (apply bs_wf_cursor, Hwf || exact Hn).
  split; [|exact Hwf'].
  run_world. unfold getBits. rewrite read_bits_correct by (apply bs_wf_cursor, Hwf || exact Hn).
  destruct w; reflexivity.
Qed.

(** C11. [std::cout << b.getBitsSigned(n)] with [1 <= n] bits left
    prints the two's-complement value of the [n]-bit field: a number in
    [-2^(n-1), 2^(n-1)) congruent modulo [2^n] to the field's bits. *)
Theorem print_getBitsSigned_range n w :
  (1 <= n)%nat -> bs_wf (t_b w) -> (n <= bits_available (cur (t_b w)))%nat ->
  exists v b', print_getBitsSigned n w = (with_out [Number v] (set_b b' w), inr tt) /\
    - 2 ^ (Z.of_nat n - 1) <= v < 2 ^ (Z.of_nat n - 1) /\
    v mod 2 ^ Z.of_nat n = bits_to_Z (window (bytes_to_bits (start (t_b w))) (cursor_pos (cur (t_b w))) n).
Proof.
  intros H1 Hwf Hn.
  destruct (getBits n (t_b w)) as [b' r] eqn:E.
  pose proof E as E'. unfold getBits in E'.
  rewrite read_bits_correct in E' by (apply bs_wf_cursor, Hwf || exact Hn).
  injection E' as _ <-.
  destruct (getBitsSigned_range n (t_b w) b' _ H1 E) as (Hs & Hr & Hm).
  exists (sign_extend n (bits_to_Z (window (bytes_to_bits (start (t_b w))) (cursor_pos (cur (t_b w))) n))), b'.
  split; [|split; [exact Hr|exact Hm]].
  run_world. rewrite Hs. destruct w; reflexivity.
Qed.

(** C12. The value [read_bits] returns always has the type it is
    converted to: whatever the cursor, a read of [n <= 64] available
    bits yields a value below [2^64], so [QIntC::to_ulong] at line 30
    never raises its range error, [test_read_bits] returns, and the
    printed result is that value. *)
Theorem test_read_bits_fits n w :
  (n <= 64)%nat -> (n <= t_bits_available w)%nat ->
  exists v c', test_read_bits n w =
    (with_out [Bits_read n v; Values (Z.of_nat (p c')) (bit_offset c') (bits_available c')]
       (set_cursor c' w), inr tt) /\ 0 <= v < 2 ^ 64.
Proof.
  intros H64 Hn. rewrite test_read_bits_run.
  destruct (read_bits buf n (get_cursor w)) as [c' [e|v]] eqn:E.
  { apply (f_equal snd), read_bits_fails in E. cbn in E. lia. }
  rewrite (read_bits_to_ulong _ _ _ _ _ H64 E). exists v, c'. split; [reflexivity|].
  apply read_bits_bounded in E. assert (2 ^ Z.of_nat n <= 2 ^ 64) by (apply Z.pow_le_mono_r; lia). lia.
Qed.

(** C13. A zero-width read ([bits.cc], line 83) prints result 0 and the
    unchanged cursor, whatever the cursor. *)
Theorem test_read_bits_zero w :
  test_read_bits 0 w =
    (with_out [Bits_read 0 0; Values (Z.of_nat (t_p w)) (t_bit_offset w) (t_bits_available w)] w, inr tt).
Proof.
  rewrite test_read_bits_run, read_bits_zero. cbn [to_ulong]. now rewrite set_get_cursor.
Qed.

(** C14. [test_read_bits] keeps the locals [p], [bit_offset] and
    [bits_available] a well-formed cursor into [buf], whether the read
    succeeds or raises. *)
Theorem test_read_bits_wf n w :
  cursor_wf buf (get_cursor w) -> cursor_wf buf (get_cursor (fst (test_read_bits n w))).
Proof.
  intros Hwf. pose proof (read_bits_wf buf n (get_cursor w) Hwf) as Hwf'.
  rewrite test_read_bits_run. destruct (read_bits buf n (get_cursor w)) as [c [e|v]];
    [|destruct (to_ulong v)]; destruct c; exact Hwf'.
Qed.

(** C25. [std::cout << b.getBits(n)] and [std::cout << b.getBitsSigned(n)]
    with fewer than [n] bits left in [b] raise the exhaustion error
    before anything is printed: the reader, the other locals and
    standard output are as they were, and the exception carries the
    width wanted and the bits left. *)
Theorem print_getBits_exhausted n w :
  (bits_available (cur (t_b w)) < n)%nat ->
  print_getBits n w = (w, inl (Exhaustion n (bits_available (cur (t_b w))))) /\
  print_getBitsSigned n w = (w, inl (Exhaustion n (bits_available (cur (t_b w))))).
Proof.
  intros Hn. run_world. unfold getBitsSigned, getBits, read_bits, st_bind.
  destruct (Nat.ltb_spec (bits_available (cur (t_b w))) n) as [_|]; [|lia].
  destruct w as [? ? ? ? ? [] ? ? ?]; split; reflexivity.
Qed.

End BitsProps.

(** ** The claims at the worlds of [bits.cc] *)

Lemma test_read_bits_spec_witness :
  test_read_bits 5 (set_cursor (mk_cursor 0 7 64) init_world) =
  (with_out [Bits_read 5 30; Values 0 2 59]
     (set_cursor (mk_cursor 0 2 59) (set_cursor (mk_cursor 0 7 64) init_world)), inr tt).
Proof.
  pose proof (test_read_bits_spec 5 (set_cursor (mk_cursor 0 7 64) init_world)) as E.
  cbv zeta in E. rewrite E; [vm_compute; reflexivity | split; cbn; lia | cbn; lia | lia].
Defined.

Lemma read_exhaustion_handled_witness :
  read_exhaustion_test 4 (set_cursor (mk_cursor 7 2 3) init_world) =
  (with_out [Exception (Exhaustion 4 3); Values 7 2 3] (set_cursor (mk_cursor 7 2 3) init_world), inr tt).
Proof. apply (read_exhaustion_handled 4 (set_cursor (mk_cursor 7 2 3) init_world)). cbn; lia. Defined.

Lemma test_write_bits_spec_witness :
  exists c' off' data' rd',
    test_write_bits 10 4 (set_writer (mk_wstate 0xF0 2 (Pl_Buffer [] false)) init_world) =
      (with_out [Write_state c' off']
         (set_writer (mk_wstate c' off' (Pl_Buffer data' rd'))
            (set_writer (mk_wstate 0xF0 2 (Pl_Buffer [] false)) init_world)), inr tt) /\
    wstate_wf (mk_wstate c' off' tt) /\ Forall is_byte data' /\
    bytes_to_bits data' ++ pending (mk_wstate c' off' tt) =
      bytes_to_bits [] ++ pending (mk_wstate 0xF0 2 tt) ++ to_bits 4 10.
Proof.
  apply (test_write_bits_spec 10 4 (set_writer (mk_wstate 0xF0 2 (Pl_Buffer [] false)) init_world) [] false).
  - unfold wstate_wf; cbn. split; [lia|split; [lia|reflexivity]].
  - reflexivity.
  - constructor.
Defined.

Lemma bw_roundtrip_witness :
  exists bytes w',
    (st_modify (fun w => set_bw (BitWriter_new (t_bp w)) w) ;;
     bw_call (write_fields [(30, 5%nat); (10, 4%nat); (10, 6%nat); (357, 9%nat)]) ;;
     bw_call flush ;; print_buffer) init_world = (w', inr tt) /\
    t_out w' = t_out init_world ++ buffer_lines bytes /\
    snd (read_fields [5; 4; 6; 9]%nat (BitStream_new bytes (length bytes))) = inr [30; 10; 10; 357].
Proof.
  apply (bw_roundtrip [(30, 5%nat); (10, 4%nat); (10, 6%nat); (357, 9%nat)] init_world false).
  - repeat apply Forall_cons; try apply Forall_nil; cbn; lia.
  - reflexivity.
Defined.

Lemma bw_signed_roundtrip_witness :
  exists bytes w',
    (st_modify (fun w => set_bw (BitWriter_new (t_bp w)) w) ;;
     bw_call (write_fields_signed [(-1, 3%nat); (-12, 6%nat); (-4, 3%nat); (-1, 1%nat)]) ;;
     bw_call flush ;; print_buffer) init_world = (w', inr tt) /\
    t_out w' = t_out init_world ++ buffer_lines bytes /\
    snd (read_fields_signed [3; 6; 3; 1]%nat (BitStream_new bytes (length bytes))) = inr [-1; -12; -4; -1].
Proof.
  apply (bw_signed_roundtrip [(-1, 3%nat); (-12, 6%nat); (-4, 3%nat); (-1, 1%nat)] init_world false).
  - repeat apply Forall_cons; try apply Forall_nil; cbn; lia.
  - reflexivity.
Defined.

Lemma bw_flush_idempotent_witness :
  bw_call flush (fst (bw_call flush (set_bw (mk_wstate 0xF0 2 (Pl_Buffer [] false)) init_world))) =
  (fst (bw_call flush (set_bw (mk_wstate 0xF0 2 (Pl_Buffer [] false)) init_world)), inr tt).
Proof.
  apply (bw_flush_idempotent (set_bw (mk_wstate 0xF0 2 (Pl_Buffer [] false)) init_world));
    [cbn; lia | vm_compute; reflexivity].
Defined.

Lemma print_buffer_resets_witness :
  (print_buffer ;; print_buffer) (set_bp (Pl_Buffer [0xF0; 0xAB] false) init_world) =
  (with_out (buffer_lines [0xF0; 0xAB] ++ [Blank])
     (set_bp (Pl_Buffer [] true) (set_bp (Pl_Buffer [0xF0; 0xAB] false) init_world)), inr tt).
Proof. apply (print_buffer_resets _ [0xF0; 0xAB] false). reflexivity. Defined.

Lemma print_getBits_spec_witness :
  let b := t_b (set_b (BitStream_new buf 8) init_world) in
  let b' := with_cur (cursor_at (cursor_pos (cur b) + 6) (bits_available (cur b) - 6)) b in
  print_getBits 6 (set_b (BitStream_new buf 8) init_world) =
    (with_out [Number (bits_to_Z (window (bytes_to_bits (start b)) (cursor_pos (cur b)) 6))]
       (set_b b' (set_b (BitStream_new buf 8) init_world)), inr tt) /\ bs_wf b'.
Proof.
  apply (print_getBits_spec 6 (set_b (BitStream_new buf 8) init_world));
    [repeat split; vm_compute; lia | cbn; lia].
Defined.

Lemma print_getBitsSigned_range_witness :
  exists v b', print_getBitsSigned 3 (set_b (BitStream_new buf 8) init_world) =
    (with_out [Number v] (set_b b' (set_b (BitStream_new buf 8) init_world)), inr tt) /\
    - 2 ^ (Z.of_nat 3 - 1) <= v < 2 ^ (Z.of_nat 3 - 1) /\
    v mod 2 ^ Z.of_nat 3 = bits_to_Z (window (bytes_to_bits buf) 0 3).
Proof.
  apply (print_getBitsSigned_range 3 (set_b (BitStream_new buf 8) init_world));
    [lia | repeat split; vm_compute; lia | cbn; lia].
Defined.

Lemma test_read_bits_fits_witness :
  exists v c', test_read_bits 32 (set_cursor (mk_cursor 0 7 64) init_world) =
    (with_out [Bits_read 32 v; Values (Z.of_nat (p c')) (bit_offset c') (bits_available c')]
       (set_cursor c' (set_cursor (mk_cursor 0 7 64) init_world)), inr tt) /\ 0 <= v < 2 ^ 64.
Proof. apply (test_read_bits_fits 32 (set_cursor (mk_cursor 0 7 64) init_world)); cbn; lia. Defined.

Lemma test_read_bits_wf_witness :
  cursor_wf buf (get_cursor (fst (test_read_bits 4 (set_cursor (mk_cursor 7 2 3) init_world)))).
Proof. apply test_read_bits_wf. split; cbn; lia. Defined.

Lemma print_getBits_exhausted_witness :
  print_getBits 8 (set_b (BitStream_new buf 0) init_world) =
    (set_b (BitStream_new buf 0) init_world, inl (Exhaustion 8 0)) /\
  print_getBitsSigned 8 (set_b (BitStream_new buf 0) init_world) =
    (set_b (BitStream_new buf 0) init_world, inl (Exhaustion 8 0)).
Proof. apply (print_getBits_exhausted 8 (set_b (BitStream_new buf 0) init_world)). cbn; lia. Defined.
