(* ===== verification/TestBitsBlocks.v ===== *)
(** * The read and write blocks of [src/libtests/bits.cc]

    The read block of [test()] (lines 76-93) is a sequence of
    [test_read_bits] calls; [test_reads] runs any such sequence and
    [abs_reads] is the reader of specification 4.1 it refines.  The write
    and [BitWriter] blocks (lines 133-168) are sequences of calls on the
    shared [bp]; [wcall] names those calls and [run_calls] runs any
    sequence of them.  The theorems: the read block refines the abstract
    reader, repeated reads reach exhaustion, and no sequence of write
    calls raises. *)

From S2P Require Import Prelude BitList Codec Pipeline Bits BitStream BitWriter TestBits.
From Stdlib Require Import ZArith List Lia Bool.
Import ListNotations.
Open Scope qpdf_scope.
Open Scope Z_scope.

Section Blocks.
Context `{Codec}.

(** ** The read block against an abstract reader *)

(** The reads of lines 76-84: [test_read_bits] with each width in turn. *)
Fixpoint test_reads (ns : list nat) : st world unit :=
  match ns with
  | [] => st_ret tt
  | n :: ns' => test_read_bits n ;; test_reads ns'
  end.

(** The reader of specification 4.1 over the bit stream [s]: a position
    and a count of available bits.  A read of [n] bits returns the next
    [n] bits of the stream and moves [n] bits on, or, when fewer than
    [n] are available, fails without moving; the trace is what a reader
    at that position prints (byte [pos / 8], bit [7 - pos mod 8]). *)
Fixpoint abs_reads (s : list bool) (ns : list nat) (pos avail : nat)
    : list line * nat * nat * (exn + unit) :=
  match ns with
  | [] => ([], pos, avail, inr tt)
  | n :: ns' =>
      if Nat.ltb avail n then ([], pos, avail, inl (Exhaustion n avail))
      else let '(ls, pos', avail', r) := abs_reads s ns' (pos + n) (avail - n) in
           (Bits_read n (bits_to_Z (window s pos n)) ::
            Values (Z.of_nat ((pos + n) / 8)) (7 - (pos + n) mod 8) (avail - n) :: ls,
            pos', avail', r)
  end.

(** ** Writing back what was read *)

(** The write-back of lines 137-152: [test_write_bits] with each value
    and width in turn. *)
Fixpoint test_writes (fs : list (Z * nat)) : st world unit :=
  match fs with
  | [] => st_ret tt
  | (v, n) :: fs' => test_write_bits v n ;; test_writes fs'
  end.

(** The fields a reader returns for the widths [ns] from position
    [pos] of the stream [s]. *)
Fixpoint fields_at (s : list bool) (pos : nat) (ns : list nat) : list (Z * nat) :=
  match ns with
  | [] => []
  | n :: ns' => (bits_to_Z (window s pos n), n) :: fields_at s (pos + n) ns'
  end.

(** ** The calls of the write blocks

    The write and [BitWriter] blocks of [test()] (lines 133-168) are
    sequences of these calls on the world; [bw] and the [write_bits]
    locals share [bp]. *)
Inductive wcall : Type :=
| Call_write_bits (val : Z) (bits : nat)          (** [test_write_bits(ch, bit_offset, val, bits, bp)] *)
| Call_print_buffer                               (** [print_buffer(bp)] *)
| Call_writeBits (val : Z) (bits : nat)           (** [bw.writeBits(val, bits)] *)
| Call_writeBitsInt (val : Z) (bits : nat)        (** [bw.writeBitsInt(val, bits)] *)
| Call_writeBitsSigned (val : Z) (bits : nat)     (** [bw.writeBitsSigned(val, bits)] *)
| Call_flush.                                     (** [bw.flush()] *)

Definition run_call (c : wcall) : st world unit :=
  match c with
  | Call_write_bits v n => test_write_bits v n
  | Call_print_buffer => print_buffer
  | Call_writeBits v n => bw_call (writeBits v n)
  | Call_writeBitsInt v n => bw_call (writeBitsInt v n)
  | Call_writeBitsSigned v n => bw_call (writeBitsSigned v n)
  | Call_flush => bw_call flush
  end.

Fixpoint run_calls (cs : list wcall) : st world unit :=
  match cs with
  | [] => st_ret tt
  | c :: cs' => run_call c ;; run_calls cs'
  end.

(** The invariant of the write blocks: both writers have a well-formed
    pending byte and the shared [bp] is a [Pl_Buffer] of bytes. *)
Definition world_ok (w : world) : Prop := buffer_ok (get_writer w) /\ wstate_wf (get_bw w).

(** The lines the write blocks print: a [ch] that is a byte with a bit
    offset in [0, 7], and non-empty buffers of bytes. *)
Definition line_ok (l : line) : Prop :=
  match l with
  | Write_state c off => is_byte c /\ (off <= 7)%nat
  | Buffer_bytes bs => bs <> [] /\ Forall is_byte bs
  | Blank => True
  | _ => False
  end.

Lemma get_cursor_with_out l c w : get_cursor (with_out l (set_cursor c w)) = c.
Proof. destruct c; reflexivity. Qed.

Lemma set_cursor_with_out c c' l w :
  set_cursor c (with_out l (set_cursor c' w)) = with_out l (set_cursor c w).
Proof. destruct w; reflexivity. Qed.

Lemma set_cursor_at w :
  cursor_wf buf (get_cursor w) ->
  set_cursor (cursor_at (cursor_pos (get_cursor w)) (t_bits_available w)) w = w.
Proof.
  intros [Ho _]. change (t_bits_available w) with (bits_available (get_cursor w)).
  rewrite (cursor_at_pos (get_cursor w) Ho). apply set_get_cursor.
Qed.

(** One successful read on a well-formed cursor, as the abstract reader
    sees it. *)

Lemma bw_call_ok (m : st (wstate stage) unit) m' w :
  buf_sim m m' -> recorder_ok m' -> world_ok w ->
  exists w', bw_call m w = (w', inr tt) /\ world_ok w' /\ t_out w' = t_out w.
Proof.
  intros Hs Hr (Hw & Hbw).
  assert (Hb : buffer_ok (get_bw w)).
  { destruct Hw as (_ & data & rd & Hp & Hb). split; [exact Hbw|exists data, rd; auto]. }
  destruct (buf_sim_ok m m' Hs Hr _ Hb) as (s' & Hrun & Hwf' & data' & rd' & Hp' & Hb').
  exists (set_bw s' w). unfold bw_call, st_focus. rewrite Hrun.
  split; [reflexivity|]. split; [|reflexivity].
  split; [split; [exact (proj1 Hw)|exists data', rd'; auto]|exact Hwf'].
Qed.

(** One call of the write blocks returns, keeps the invariant and
    prints well-typed lines. *)
Lemma run_call_ok c w :
  world_ok w ->
  exists w' ls, run_call c w = (w', inr tt) /\ world_ok w' /\ t_out w' = t_out w ++ ls /\
    Forall line_ok ls.
Proof.
  intros Hok. pose proof Hok as ((Hwf & data & rd & Hp & Hb) & Hbw).
  destruct c as [v n| |v n|v n|v n|]; cbn [run_call].
  - destruct (buf_sim_ok _ _ (write_bits_buf_sim v n) (write_bits_recorder_ok v n) _ (proj1 Hok))
      as (s' & Hrun & Hwf' & data' & rd' & Hp' & Hb').
    exists (with_out [Write_state (ch s') (w_bit_offset s')] (set_writer s' w)),
      [Write_state (ch s') (w_bit_offset s')].
    split; [run_world; rewrite Hrun; reflexivity|].
    split; [split; [split; [exact Hwf'|exists data', rd'; auto]|exact Hbw]|].
    split; [reflexivity|]. constructor; [|constructor].
    split; [exact (proj1 (proj2 Hwf'))|exact (proj1 Hwf')].
  - exists (with_out (buffer_lines data) (set_bp (Pl_Buffer [] true) w)), (buffer_lines data).
    split; [exact (print_buffer_run w data rd Hp)|].
    split; [split; [split; [exact Hwf|exists [], true; auto]|exact Hbw]|split; [reflexivity|]].
    destruct data as [|b data]; cbn [buffer_lines]; [repeat constructor|].
    constructor; [split; [discriminate|exact Hb]|repeat constructor].
  - destruct (bw_call_ok _ _ w (write_bits_buf_sim v n) (write_bits_recorder_ok v n) Hok)
      as (w' & ? & ? & Ho); exists w', []; rewrite app_nil_r; auto.
  - destruct (bw_call_ok _ _ w (write_bits_buf_sim (v mod 2 ^ 64) n)
      (write_bits_recorder_ok (v mod 2 ^ 64) n) Hok) as (w' & ? & ? & Ho); exists w', [];
      rewrite app_nil_r; auto.
  - destruct (bw_call_ok _ _ w (write_bits_buf_sim (v mod 2 ^ Z.of_nat n) n)
      (write_bits_recorder_ok (v mod 2 ^ Z.of_nat n) n) Hok) as (w' & ? & ? & Ho); exists w', [];
      rewrite app_nil_r; auto.
  - destruct (bw_call_ok _ _ w flush_buf_sim flush_recorder_ok Hok) as (w' & ? & ? & Ho);
      exists w', []; rewrite app_nil_r; auto.
Qed.

(** [test_read_bits] in terms of [read_bits] on the locals. *)
(** C16. Safety of the write blocks: from a world where both writers
    are well formed and the shared [bp] is a [Pl_Buffer] of bytes, every
    sequence of the calls of the write and [BitWriter] blocks
    ([test_write_bits], [print_buffer], [bw.writeBits], [writeBitsInt],
    [writeBitsSigned], [flush]), with any values and widths and in any
    order, returns without an exception (in particular [getBuffer] is
    never called on an unfinished buffer), keeps the invariant, and only
    prints bytes with valid offsets and non-empty buffers of bytes. *)
Theorem write_calls_safe cs w :
  world_ok w ->
  exists w' ls, run_calls cs w = (w', inr tt) /\ world_ok w' /\ t_out w' = t_out w ++ ls /\
    Forall line_ok ls.
Proof.
  revert w. induction cs as [|c cs IH]; intros w Hok.
  { exists w, []. rewrite app_nil_r. auto. }
  destruct (run_call_ok c w Hok) as (w1 & ls1 & Hrun1 & Hok1 & Ho1 & Hl1).
  destruct (IH w1 Hok1) as (w2 & ls2 & Hrun2 & Hok2 & Ho2 & Hl2).
  exists w2, (ls1 ++ ls2). cbn [run_calls]. unfold st_bind. rewrite Hrun1.
  rewrite Ho2, Ho1, app_assoc.
  split; [exact Hrun2|split; [exact Hok2|split; [reflexivity|apply Forall_app; auto]]].
Qed.

(** C17. Refinement of the read block: from a well-formed cursor into
    [buf], any sequence of [test_read_bits] calls prints exactly the
    trace of the abstract reader of specification 4.1 over the bit
    stream of [buf] (the next [n] bits of the stream for each width, the
    position after it), stops at the first width that exceeds the
    available bits with the exhaustion error, and leaves the locals at
    the abstract reader's final position.  Every width is at most 64, the
    width of the [unsigned long long] [read_bits] returns. *)
Theorem test_reads_refines ns w :
  Forall (fun n => n <= 64)%nat ns -> cursor_wf buf (get_cursor w) ->
  let '(ls, pos', avail', r) :=
    abs_reads (bytes_to_bits buf) ns (cursor_pos (get_cursor w)) (t_bits_available w) in
  test_reads ns w = (with_out ls (set_cursor (cursor_at pos' avail') w), r).
Proof.
  intros H64. revert w. induction H64 as [|n ns Hn64 _ IH]; intros w Hwf; cbn [abs_reads test_reads].
  { rewrite set_cursor_at, with_out_nil by exact Hwf. reflexivity. }
  unfold st_bind. destruct (Nat.ltb_spec (t_bits_available w) n) as [Hlt|Hge].
  { rewrite test_read_bits_fail by exact Hlt. rewrite set_cursor_at, with_out_nil by exact Hwf.
    reflexivity. }
  destruct (test_read_bits_step n w Hwf Hge Hn64) as [Hstep Hwf']. rewrite Hstep.
  match goal with
  | |- context [test_reads ns ?x] =>
      specialize (IH x); assert (Ha : t_bits_available x = (t_bits_available w - n)%nat) by reflexivity
  end.
  rewrite Ha, get_cursor_with_out, cursor_pos_at in IH. specialize (IH Hwf').
  destruct (abs_reads _ ns _ _) as [[[ls pos'] avail'] r]. rewrite IH.
  now rewrite set_cursor_with_out, with_out_app.
Qed.

(** C18. Reading never stalls: reading [n >= 1] bits again and again
    from a well-formed cursor reaches the end of the available bits.
    After exactly [bits_available / n] successful reads the next one
    raises the exhaustion error, with the [bits_available mod n] bits
    that are left ([n] at most 64). *)
Theorem test_reads_exhaust n w :
  (1 <= n <= 64)%nat -> cursor_wf buf (get_cursor w) ->
  exists w', test_reads (repeat n (t_bits_available w / n + 1)) w =
               (w', inl (Exhaustion n (t_bits_available w mod n))) /\
             t_bits_available w' = (t_bits_available w mod n)%nat.
Proof.
  intros Hn. remember (t_bits_available w / n)%nat as k eqn:Hk. revert w Hk.
  induction k as [|k IH]; intros w Hk Hwf; cbn [repeat Nat.add test_reads]; unfold st_bind.
  - assert (Hlt : (t_bits_available w < n)%nat).
    { destruct (Nat.lt_ge_cases (t_bits_available w) n) as [?|Hge]; [assumption|].
      pose proof (Nat.div_str_pos (t_bits_available w) n ltac:(lia)). lia. }
    rewrite test_read_bits_fail, Nat.mod_small by exact Hlt. eauto.
  - set (a := t_bits_available w) in *.
    assert (Ha : a = (a - n + 1 * n)%nat).
    { destruct (Nat.lt_ge_cases a n) as [Hlt|]; [rewrite Nat.div_small in Hk by exact Hlt; discriminate|lia]. }
    assert (Hge : (n <= a)%nat) by lia.
    destruct (test_read_bits_step n w Hwf Hge ltac:(lia)) as [Hstep Hwf']. rewrite Hstep.
    match goal with
    | |- context [test_reads _ ?x] =>
        assert (Hx : t_bits_available x = (a - n)%nat) by reflexivity;
        destruct (IH x) as (w' & Hrun & Hav)
    end.
    + rewrite Hx. rewrite Ha, Nat.div_add in Hk by lia. lia.
    + rewrite get_cursor_with_out. exact Hwf'.
    + rewrite Hrun. exists w'. rewrite Hav, Hx.
      replace (a mod n)%nat with ((a - n) mod n)%nat; [auto|].
      rewrite Ha at 2. now rewrite Nat.Div0.mod_add.
Qed.

Lemma test_writes_run : forall fs w data rd,
  wstate_wf (get_writer w) -> t_bp w = Pl_Buffer data rd -> Forall is_byte data ->
  exists w' data' rd' ls, test_writes fs w = (w', inr tt) /\ t_bp w' = Pl_Buffer data' rd' /\
    Forall is_byte data' /\ wstate_wf (get_writer w') /\ t_out w' = t_out w ++ ls /\
    bytes_to_bits data' ++ pending (get_writer w') = bytes_to_bits data ++ pending (get_writer w) ++ field_bits fs.
Proof.
  induction fs as [|[v n] fs IH]; intros w data rd Hwf Hbp Hb.
  { exists w, data, rd, []. rewrite !app_nil_r. auto 6. }
  destruct (test_write_bits_step v n w data rd Hwf Hbp Hb) as (c1 & o1 & d1 & r1 & Hrun1 & Hwf1 & Hb1 & Hbits1).
  destruct (IH (with_out [Write_state c1 o1] (set_writer (mk_wstate c1 o1 (Pl_Buffer d1 r1)) w))
              d1 r1 Hwf1 eq_refl Hb1) as (w' & d' & r' & ls & Hrun & Hbp' & Hb' & Hwf' & Ho & Hbits).
  exists w', d', r', (Write_state c1 o1 :: ls). cbn [test_writes]. unfold st_bind. rewrite Hrun1.
  split; [exact Hrun|]. split; [exact Hbp'|]. split; [exact Hb'|]. split; [exact Hwf'|].
  split; [rewrite Ho; cbn [with_out t_out set_writer]; now rewrite <- app_assoc|].
  rewrite Hbits. change (pending (get_writer (with_out _ (set_writer (mk_wstate c1 o1 _) w))))
    with (pending (mk_wstate c1 o1 tt)).
  rewrite app_assoc, Hbits1, field_bits_cons, <- !app_assoc. reflexivity.
Qed.

(** The bits of the fields read at consecutive positions are the
    window they were read from. *)
Lemma field_bits_fields_at : forall ns s pos,
  (pos + list_sum ns <= length s)%nat -> field_bits (fields_at s pos ns) = window s pos (list_sum ns).
Proof.
  induction ns as [|n ns IH]; intros s pos Hle; cbn [fields_at].
  { unfold window. reflexivity. }
  change (list_sum (n :: ns)) with (n + list_sum ns)%nat in *. rewrite field_bits_cons, IH by lia.
  rewrite <- (length_window s pos n) at 1 by lia. rewrite to_bits_bits_to_Z.
  symmetry. apply window_split.
Qed.

Lemma buf_bytes : Forall is_byte buf.
Proof. repeat constructor; unfold is_byte; lia. Qed.

(** C21. Writing back what was read: for any widths [ns] totalling a
    whole number [k] of bytes, starting at byte [j] of [buf], writing the
    fields a reader returns for those widths with [test_write_bits] into
    an empty [bp], from a fresh accumulator, and printing the buffer
    prints exactly bytes [j .. j + k - 1] of [buf].  This is what the
    three write blocks of [bits.cc] do (lines 133-153), for every split
    of the bytes into fields. *)
Theorem write_back ns j w rd :
  (list_sum ns mod 8 = 0)%nat -> (8 * j + list_sum ns <= 8 * length buf)%nat ->
  get_writer w = mk_wstate 0 7 (Pl_Buffer [] rd) ->
  exists w' ls,
    (test_writes (fields_at (bytes_to_bits buf) (8 * j) ns) ;; print_buffer) w = (w', inr tt) /\
    t_out w' = t_out w ++ ls ++ buffer_lines (firstn (list_sum ns / 8) (skipn j buf)).
Proof.
  intros Hmod Hle Hw. set (k := (list_sum ns / 8)%nat).
  assert (Hk : list_sum ns = (8 * k)%nat) by (pose proof (Nat.div_mod_eq (list_sum ns) 8); lia).
  assert (Hwf : wstate_wf (get_writer w)) by (rewrite Hw; repeat split; cbn; lia).
  assert (Hbp : t_bp w = Pl_Buffer [] rd) by (apply (f_equal w_pl) in Hw; exact Hw).
  destruct (test_writes_run (fields_at (bytes_to_bits buf) (8 * j) ns) w [] rd Hwf Hbp (Forall_nil _))
    as (w' & d' & r' & ls & Hrun & Hbp' & Hb' & Hwf' & Ho & Hbits).
  rewrite field_bits_fields_at in Hbits by (rewrite length_bytes_to_bits; lia).
  rewrite Hw, Hk, window_bytes_to_bits in Hbits.
  change (bytes_to_bits [] ++ pending (mk_wstate 0 7 (Pl_Buffer [] rd)) ++ ?x) with x in Hbits.
  (* the total is a whole number of bytes, so nothing stays pending *)
  assert (Hoff : w_bit_offset (get_writer w') = 7%nat).
  { apply (f_equal (@length bool)) in Hbits. unfold pending in Hbits.
    rewrite length_app, !length_bytes_to_bits, length_to_bits, length_firstn, length_skipn in Hbits.
    destruct Hwf' as (Ho7 & _). lia. }
  unfold pending in Hbits. rewrite Hoff, Nat.sub_diag in Hbits. cbn [to_bits app] in Hbits.
  rewrite app_nil_r in Hbits.
  apply bytes_to_bits_inj in Hbits;
    [|exact Hb'|apply Forall_firstn_skipn, Forall_firstn_skipn, buf_bytes]. subst d'.
  exists (with_out (buffer_lines (firstn k (skipn j buf))) (set_bp (Pl_Buffer [] true) w')), ls.
  unfold st_bind. rewrite Hrun, (print_buffer_run _ _ r' Hbp'). split; [reflexivity|].
  cbn [with_out t_out set_bp]. rewrite Ho, app_assoc. reflexivity.
Qed.

End Blocks.

(** The claim C16 at the calls of the write blocks of [bits.cc]
    (lines 137-153, then 156-168). *)
Lemma write_calls_safe_witness :
  exists w' ls,
    run_calls [Call_write_bits 30 5; Call_write_bits 10 4; Call_write_bits 10 6;
               Call_write_bits 16059 0; Call_write_bits 357 9; Call_print_buffer;
               Call_write_bits 242 9; Call_write_bits 0 2; Call_write_bits 1 1;
               Call_write_bits 5320361 25; Call_write_bits 3 3; Call_print_buffer;
               Call_write_bits 4111820153 32; Call_write_bits 310998347 32; Call_print_buffer;
               Call_writeBits 30 5; Call_flush; Call_flush; Call_writeBitsInt 0xAB 8; Call_flush;
               Call_print_buffer; Call_writeBitsSigned (-1) 3; Call_writeBitsSigned (-12) 6;
               Call_writeBitsSigned 4 3; Call_writeBitsSigned (-4) 3; Call_writeBitsSigned (-1) 1;
               Call_flush; Call_print_buffer] init_world = (w', inr tt) /\
    world_ok w' /\ t_out w' = t_out init_world ++ ls /\ Forall line_ok ls.
Proof.
  apply write_calls_safe.
  split; [split; [|exists [], false; split; [reflexivity|constructor]]|];
    unfold wstate_wf; cbn; (split; [lia|split; [lia|reflexivity]]).
Defined.

(** The claim C17 at the whole read block of [bits.cc] (lines 76-93). *)
Lemma test_reads_refines_witness :
  let '(ls, pos', avail', r) :=
    abs_reads (bytes_to_bits buf) [5; 4; 6; 9; 9; 2; 1; 0; 25; 4; 3]%nat
      (cursor_pos (get_cursor (set_cursor (mk_cursor 0 7 64) init_world)))
      (t_bits_available (set_cursor (mk_cursor 0 7 64) init_world)) in
  test_reads [5; 4; 6; 9; 9; 2; 1; 0; 25; 4; 3]%nat (set_cursor (mk_cursor 0 7 64) init_world) =
    (with_out ls (set_cursor (cursor_at pos' avail') (set_cursor (mk_cursor 0 7 64) init_world)), r).
Proof. apply test_reads_refines; [repeat constructor; lia | split; cbn; lia]. Defined.

(** The claim C18 at the 3-bit reads of the 64 bits of [buf]. *)
Lemma test_reads_exhaust_witness :
  exists w', test_reads (repeat 3%nat (t_bits_available (set_cursor (mk_cursor 0 7 64) init_world) / 3 + 1))
               (set_cursor (mk_cursor 0 7 64) init_world) =
             (w', inl (Exhaustion 3 (t_bits_available (set_cursor (mk_cursor 0 7 64) init_world) mod 3))) /\
             t_bits_available w' = (t_bits_available (set_cursor (mk_cursor 0 7 64) init_world) mod 3)%nat.
Proof. apply test_reads_exhaust; [lia | split; cbn; lia]. Defined.

(** The claim C21 at the first write block of [bits.cc] (lines 137-142):
    the widths 5, 4, 6, 0, 9 read from byte 0 give back [F5 15 65]. *)
Lemma write_back_witness :
  exists w' ls,
    (test_writes (fields_at (bytes_to_bits buf) (8 * 0) [5; 4; 6; 0; 9]%nat) ;; print_buffer)
      (set_writer (mk_wstate 0 7 (Pl_Buffer [] false)) init_world) = (w', inr tt) /\
    t_out w' = t_out (set_writer (mk_wstate 0 7 (Pl_Buffer [] false)) init_world) ++ ls ++
      buffer_lines (firstn (list_sum [5; 4; 6; 0; 9]%nat / 8) (skipn 0 buf)).
Proof. apply (write_back _ _ _ false); [reflexivity | cbn; lia | reflexivity]. Defined.
