(* ===== verification/TestConcatenate.v ===== *)
(** * The test program [src/libtests/concatenate.cc]

    [main] builds the chain [concat -> deflate -> b1], writes and
    finishes ["-one-"] and then ["-two-"] through the concatenation,
    calls [manualFinish], and inflates the content of [b1] through
    [inflate -> b2].  The stage objects are the nested [stage] values of
    [Pipeline]; [b1], reachable both as a local and as the end of the
    chain, is read through [sink].  The program has no handler: an
    exception ends it, which is the [inl] result.  The theorems hold for
    every [Codec]. *)

From S2P Require Import Prelude Codec Pipeline.
From Stdlib Require Import ZArith List Lia Bool String Ascii.
Import ListNotations.
Open Scope qpdf_scope.

(** [QUtil::unsigned_char_pointer(str)] with [str.length()]. *)
Definition bytes_of_string (s : string) : list Z :=
  map (fun c => Z.of_nat (nat_of_ascii c)) (list_ascii_of_string s).

Definition string_of_bytes (bs : list Z) : string :=
  string_of_list_ascii (map (fun z => ascii_of_nat (Z.to_nat z)) bs).

Section Concatenate.
Context `{Codec}.

Definition pipeStringAndFinish (p : stage) (str : string) : exn + stage :=
  p <-? pl_write (bytes_of_string str) p ;;
  pl_finish p.

(** [pipeStringAndFinish] for each string in turn, as [main] does with
    "-one-" and "-two-". *)
Fixpoint pipe_all (p : stage) (ss : list string) : exn + stage :=
  match ss with
  | [] => inr p
  | str :: ss' => p' <-? pipeStringAndFinish p str ;; pipe_all p' ss'
  end.

(** The lines printed and the exit status, or the exception that ends
    the program. *)
Definition concatenate_main : exn + (list string * Z) :=
  let b1 := Pl_Buffer [] false in
  let deflate := Pl_Flate a_deflate [] false b1 in
  let concat := Pl_Concatenate false deflate in
  concat <-? pipeStringAndFinish concat "-one-" ;;
  concat <-? pipeStringAndFinish concat "-two-" ;;
  concat <-? manualFinish concat ;;
  r1 <-? getBuffer (sink concat) ;;
  let b1_buf := fst r1 in
  let b2 := Pl_Buffer [] false in
  let inflate := Pl_Flate a_inflate [] false b2 in
  inflate <-? pl_write b1_buf inflate ;;
  inflate <-? pl_finish inflate ;;
  r2 <-? getBuffer (sink inflate) ;;
  let result := fst r2 in
  if list_eq_dec Z.eq_dec result (bytes_of_string "-one--two-")
  then inr (["concatenate test passed"%string], 0%Z)
  else inr (["concatenate test failed: " ++ string_of_bytes result]%string, 0%Z).

Lemma pipe_all_sessions : forall ss p,
  pipe_all p ss = sessions (map bytes_of_string ss) p.
Proof.
  induction ss as [|str ss IH]; intros p; [reflexivity|]. cbn [pipe_all sessions map].
  unfold pipeStringAndFinish. cbn [pl_write pl_finish stage_pipeline].
  destruct (stage_write (bytes_of_string str) p) as [e|p1]; [reflexivity|]. cbn [res_bind].
  destruct (stage_finish p1) as [e|p2]; [reflexivity|]. apply IH.
Qed.

(** C8. [pipeStringAndFinish] through a [Pl_Concatenate] merges the
    strings: piping any non-empty list of strings, each written and
    finished, into a concatenation stage and then calling [manualFinish]
    leaves the downstream stage exactly as writing the concatenated
    bytes once and finishing it once would; the [finish] calls in
    between never reach it. *)
Theorem pipe_all_concatenate ss next :
  ss <> [] ->
  (c <-? pipe_all (Pl_Concatenate false next) ss ;; manualFinish c)
  = (d1 <-? stage_write (flat_map bytes_of_string ss) next ;; d2 <-? stage_finish d1 ;;
     inr (Pl_Concatenate true d2)).
Proof.
  intros Hne. rewrite pipe_all_sessions, concatenate_sessions, flat_map_concat_map; [reflexivity|].
  destruct ss; [contradiction|discriminate].
Qed.

(** C9. For every compression codec whose inflate inverts its
    deflate, [concatenate.cc] runs to completion, prints
    "concatenate test passed" and exits with status 0. *)
Theorem concatenate_main_passes : concatenate_main = inr (["concatenate test passed"%string], 0%Z).
Proof.
  unfold concatenate_main, pipeStringAndFinish. cbn. rewrite inflate_deflate. reflexivity.
Qed.

(** After its first [finish], a compressor ends its stream. *)
Lemma pipeStringAndFinish_flate_finished act inp next str :
  forall d, pipeStringAndFinish (Pl_Flate act inp false next) str = inr d ->
  exists next', d = Pl_Flate act [] true next'.
Proof.
  intros d. unfold pipeStringAndFinish. cbn [pl_write pl_finish stage_pipeline stage_write res_bind stage_finish].
  destruct (flate_transform act (inp ++ bytes_of_string str)) as [e|out]; cbn [res_bind]; [discriminate|].
  destruct (stage_write_finish out next) as [e|next']; cbn [res_bind]; [discriminate|].
  intros Hd. injection Hd as <-. eauto.
Qed.

(** C15. The concatenation stage is needed: for every codec, mode,
    pending input, downstream chain and pair of strings, a second
    [pipeStringAndFinish] directly into a [Pl_Flate] stage never
    succeeds.  Either the first call already failed with its own error,
    or its [finish] ended the compressed stream and the second write is
    the contract violation "write after finish". *)
Theorem without_concatenate_fails act inp next s1 s2 :
  (d <-? pipeStringAndFinish (Pl_Flate act inp false next) s1 ;; pipeStringAndFinish d s2)
  = (d <-? pipeStringAndFinish (Pl_Flate act inp false next) s1 ;;
     inl (Contract_violation "Pl_Flate: write after finish")).
Proof.
  destruct (pipeStringAndFinish (Pl_Flate act inp false next) s1) as [e|d] eqn:E; [reflexivity|].
  destruct (pipeStringAndFinish_flate_finished act inp next s1 d E) as [next' ->]. reflexivity.
Qed.

End Concatenate.

(** The claim C8 at the chain of [concatenate.cc]. *)
Lemma pipe_all_concatenate_witness :
  ["-one-"; "-two-"]%string <> [] /\
  (c <-? pipe_all (Pl_Concatenate false (Pl_Flate a_deflate [] false (Pl_Buffer [] false)))
           ["-one-"; "-two-"]%string ;; manualFinish c)
  = (d1 <-? stage_write (flat_map bytes_of_string ["-one-"; "-two-"]%string)
             (Pl_Flate a_deflate [] false (Pl_Buffer [] false)) ;;
     d2 <-? stage_finish d1 ;; inr (Pl_Concatenate true d2)).
Proof.
  split; [discriminate|].
  apply (pipe_all_concatenate ["-one-"; "-two-"]%string). discriminate.
Defined.
