(* ===== verification/Output.v ===== *)
(** * The text [bits.cc] writes to standard output

    [TestBits] keeps the output of [bits.cc] as a list of [line] values;
    this file renders each of them as the characters its [std::cout]
    statement writes: integers in decimal ([operator<<]), the pending
    byte and the buffer bytes with [QUtil::uint_to_string_base(_, 16,
    2)] (lower-case hex padded to two digits), each line ended by a
    newline.  The message [e.what()] of an exception is a parameter
    [what]: the specification does not fix it.  The [for] loop of
    [print_buffer] is also modelled as written, with its unsigned
    index.  The theorems show that a printed buffer line determines the
    buffer and has a fixed width, that the loop terminates and prints
    what the line model records. *)

From S2P Require Import Prelude BitList Codec Pipeline Bits BitStream BitWriter TestBits.
From Stdlib Require Import ZArith List Lia Bool String Ascii.
From Stdlib Require Import DecimalString HexadecimalString DecimalZ HexadecimalN.
Import ListNotations.
Open Scope qpdf_scope.
Open Scope Z_scope.

(** ** Numbers *)

(** [std::ostream << n] for an integer: its decimal digits, after a
    minus sign when it is negative. *)
Definition dec (z : Z) : string := DecimalString.NilZero.string_of_int (Z.to_int z).

(** [QUtil::uint_to_string_base(num, 16, length)] with [length > 0]: the
    lower-case hex digits of [num], padded on the left with zeros to
    [length] characters. *)
Definition uint_to_string_base_16 (num : Z) (length : nat) : string :=
  let s := HexadecimalString.NilZero.string_of_uint (N.to_hex_uint (Z.to_N num)) in
  (string_of_list_ascii (List.repeat "0"%char (length - String.length s)) ++ s)%string.

Definition hex2 (b : Z) : string := uint_to_string_base_16 b 2.

(** ** The printed lines *)

Section Text.
Variable what : exn -> string.

Local Open Scope string_scope.

(** [print_values]. *)
Definition values_text (byte_offset : Z) (bit_offset bits_available : nat) : string :=
  "byte offset = " ++ dec byte_offset ++ ", " ++ "bit offset = " ++ dec (Z.of_nat bit_offset) ++
  ", " ++ "bits available = " ++ dec (Z.of_nat bits_available).

(** The result line of [test_read_bits]. *)
Definition bits_read_text (bits_wanted : nat) (result : Z) : string :=
  "bits read: " ++ dec (Z.of_nat bits_wanted) ++ ", result = " ++ dec result.

(** The line of [test_write_bits]. *)
Definition write_state_text (ch : Z) (bit_offset : nat) : string :=
  "ch = " ++ hex2 ch ++ ", bit_offset = " ++ dec (Z.of_nat bit_offset).

(** The loop of [print_buffer]: each byte in hex, followed by a space,
    or by the end of the line after the last one. *)
Fixpoint buffer_text (bs : list Z) : string :=
  match bs with
  | [] => ""
  | [b] => hex2 b
  | b :: bs' => hex2 b ++ " " ++ buffer_text bs'
  end.

Definition render_line (l : line) : string :=
  match l with
  | Values byte_offset bit_offset bits_available => values_text byte_offset bit_offset bits_available
  | Bits_read bits_wanted result => bits_read_text bits_wanted result
  | Exception e => "exception: " ++ what e
  | Number n => dec n
  | Write_state ch bit_offset => write_state_text ch bit_offset
  | Buffer_bytes bs => buffer_text bs
  | Blank => ""
  | Unexpected e => "unexpected exception: " ++ what e
  | Done => "done"
  end.

Definition newline : string := String (ascii_of_nat 10) EmptyString.

(** The characters written to [std::cout]. *)
Definition stdout_text (ls : list line) : string :=
  String.concat "" (map (fun l => render_line l ++ newline) ls).

End Text.

(** ** The loop of [print_buffer], as written

    Lines 52-54 run [for (unsigned long i = 0; i < l; ++i)] over the
    [l = b->getSize()] bytes [p] of the buffer, printing [p[i]] and then
    a newline when [i == l - 1] and a space otherwise.  [i] and [l] are
    unsigned 64-bit integers: [++i] and [l - 1] wrap modulo [2^64] (for
    an empty buffer [l - 1] is [2^64 - 1]).  The loop runs on fuel, one
    unit per test of [i < l]; [print_buffer_loop_total] shows that fuel
    above [l - i] is enough and that the text does not depend on it. *)
Definition wrap64 (z : Z) : Z := z mod 2 ^ 64.

Fixpoint print_buffer_loop (fuel : nat) (p : list Z) (l i : Z) : option string :=
  match fuel with
  | O => None
  | S fuel' =>
      if i <? l then
        match print_buffer_loop fuel' p l (wrap64 (i + 1)) with
        | Some rest =>
            let sep := if Z.eqb i (wrap64 (l - 1)) then newline else " "%string in
            Some (hex2 (nth (Z.to_nat i) p 0) ++ sep ++ rest)%string
        | None => None
        end
      else Some EmptyString
  end.

(** Lines 50-55: the loop over the whole buffer from [i = 0], with
    [l + 1] tests of [i < l], then the newline of line 55. *)
Definition print_buffer_text (p : list Z) : option string :=
  option_map (fun s => (s ++ newline)%string)
    (print_buffer_loop (S (List.length p)) p (Z.of_nat (List.length p)) 0).

(** ** Reading a printed buffer back *)

(** Words separated by single spaces. *)
Fixpoint split_words (s : string) : list string :=
  match s with
  | EmptyString => [EmptyString]
  | String c s' =>
      if Ascii.eqb c " "%char then EmptyString :: split_words s'
      else match split_words s' with
           | [] => [String c EmptyString]
           | w :: ws => String c w :: ws
           end
  end.

Definition parse_hex (s : string) : option Z :=
  option_map (fun d => Z.of_N (N.of_hex_uint d)) (HexadecimalString.NilZero.uint_of_string s).

Fixpoint parse_all (ws : list string) : option (list Z) :=
  match ws with
  | [] => Some []
  | w :: ws' =>
      match parse_hex w, parse_all ws' with
      | Some b, Some bs => Some (b :: bs)
      | _, _ => None
      end
  end.

Definition parse_buffer_text (s : string) : option (list Z) := parse_all (split_words s).

(** Two hex digits, none a space, that read back as [b]. *)
Definition hex2_ok (b : Z) : bool :=
  match hex2 b with
  | String c1 (String c2 EmptyString) =>
      negb (Ascii.eqb c1 " "%char) && negb (Ascii.eqb c2 " "%char) &&
      match parse_hex (hex2 b) with Some b' => Z.eqb b' b | None => false end
  | _ => false
  end.

(** ** Lemmas *)

Lemma hex2_ok_all_bytes : forallb (fun n => hex2_ok (Z.of_nat n)) (seq 0 256) = true.
Proof. vm_compute. reflexivity. Qed.

(** Every byte prints as two hex digits that read back as the byte. *)
Lemma hex2_byte b :
  is_byte b ->
  exists c1 c2, hex2 b = String c1 (String c2 EmptyString) /\
    Ascii.eqb c1 " "%char = false /\ Ascii.eqb c2 " "%char = false /\ parse_hex (hex2 b) = Some b.
Proof.
  intros Hb. unfold is_byte in Hb. change (2 ^ 8) with 256 in Hb.
  assert (Hok : hex2_ok b = true).
  { pose proof hex2_ok_all_bytes as Hall. rewrite forallb_forall in Hall.
    rewrite <- (Z2Nat.id b) by lia. apply Hall, in_seq. lia. }
  unfold hex2_ok in Hok.
  destruct (hex2 b) as [|c1 [|c2 [|c3 s]]]; try discriminate.
  exists c1, c2. destruct (Ascii.eqb c1 " "%char), (Ascii.eqb c2 " "%char); try discriminate.
  cbn [negb andb] in Hok. destruct (parse_hex _) as [b'|]; [|discriminate].
  apply Z.eqb_eq in Hok. subst b'. auto.
Qed.

Lemma split_words_hex2 c1 c2 rest :
  Ascii.eqb c1 " "%char = false -> Ascii.eqb c2 " "%char = false ->
  split_words (String c1 (String c2 (String " " rest))) = String c1 (String c2 EmptyString) :: split_words rest.
Proof. intros H1 H2. cbn [split_words]. now rewrite H1, H2. Qed.

Lemma string_append_assoc (a b c : string) : ((a ++ b) ++ c = a ++ (b ++ c))%string.
Proof. induction a as [|x a IH]; cbn; congruence. Qed.

Lemma string_append_empty (a : string) : (a ++ "" = a)%string.
Proof. induction a as [|x a IH]; cbn; congruence. Qed.

Lemma wrap64_small z : 0 <= z < 2 ^ 64 -> wrap64 z = z.
Proof. apply Z.mod_small. Qed.

(** Reading [p[0]], ..., [p[l - 1]] reads the whole list. *)
Lemma map_nth_seq_length (p : list Z) : map (fun j => nth j p 0) (seq 0 (List.length p)) = p.
Proof.
  induction p as [|a p IH]; [reflexivity|]. cbn [List.length seq map nth].
  rewrite <- seq_shift, map_map. cbn [nth]. now rewrite IH.
Qed.

(** The loop from [i], on enough fuel: the bytes [p[i]], ...,
    [p[l - 1]] as [buffer_text] prints them, then a newline; nothing
    when [i = l].  Induction on the fuel, with [l - i] as the variant. *)
Lemma print_buffer_loop_value fuel p l i :
  0 <= i <= l -> l < 2 ^ 64 -> (Z.to_nat (l - i) < fuel)%nat ->
  print_buffer_loop fuel p l i =
    Some (match Z.to_nat (l - i) with
          | O => EmptyString
          | k => (buffer_text (map (fun j => nth j p 0) (seq (Z.to_nat i) k)) ++ newline)%string
          end).
Proof.
  revert i. induction fuel as [|fuel IH]; intros i Hi Hl Hf; [lia|]. cbn [print_buffer_loop].
  destruct (Z.ltb_spec i l) as [Hlt|Hge].
  - rewrite wrap64_small, IH by lia. rewrite (wrap64_small (l - 1)) by lia.
    replace (Z.to_nat (l - i)) with (S (Z.to_nat (l - (i + 1)))) by lia.
    replace (Z.to_nat (i + 1)) with (S (Z.to_nat i)) by lia.
    destruct (Z.eqb_spec i (l - 1)) as [Heq|Hne].
    + replace (Z.to_nat (l - (i + 1))) with 0%nat by lia. cbn [seq map buffer_text].
      now rewrite string_append_empty.
    + destruct (Z.to_nat (l - (i + 1))) as [|k] eqn:Hk; [lia|]. cbn [seq map buffer_text].
      now rewrite !string_append_assoc.
  - replace (Z.to_nat (l - i)) with 0%nat by lia. reflexivity.
Qed.

(** ** Properties of the printed text *)

(** C19. A line printed by [print_buffer] determines the buffer: for a
    non-empty buffer of bytes, splitting the line at the spaces and
    reading each word as hex gives back exactly the bytes. *)
Theorem buffer_text_roundtrip bs :
  bs <> [] -> Forall is_byte bs -> parse_buffer_text (buffer_text bs) = Some bs.
Proof.
  induction bs as [|b bs IH]; intros Hne Hb; [contradiction|]. inversion Hb as [|? ? Hb1 Hbs]; subst.
  destruct (hex2_byte b Hb1) as (c1 & c2 & Hh & H1 & H2 & Hp). rewrite Hh in Hp.
  unfold parse_buffer_text. destruct bs as [|b' bs'].
  - cbn [buffer_text]. rewrite Hh. cbn [split_words]. rewrite H1, H2. cbn [parse_all]. now rewrite Hp.
  - change (buffer_text (b :: b' :: bs')) with (hex2 b ++ " " ++ buffer_text (b' :: bs'))%string.
    rewrite Hh. cbn [append]. rewrite split_words_hex2 by assumption. cbn [parse_all].
    unfold parse_buffer_text in IH. rewrite Hp, IH by (discriminate || exact Hbs). reflexivity.
Qed.

(** C20. Fixed width: every byte of a buffer line is printed as exactly
    two hex digits ([uint_to_string_base] pads to two), so the line of a
    non-empty buffer of [l] bytes has [3 l - 1] characters. *)
Theorem buffer_text_length bs :
  bs <> [] -> Forall is_byte bs -> String.length (buffer_text bs) = (3 * List.length bs - 1)%nat.
Proof.
  induction bs as [|b bs IH]; intros Hne Hb; [contradiction|]. inversion Hb as [|? ? Hb1 Hbs]; subst.
  destruct (hex2_byte b Hb1) as (c1 & c2 & Hh & _). destruct bs as [|b' bs'].
  - cbn [buffer_text]. now rewrite Hh.
  - change (buffer_text (b :: b' :: bs')) with (hex2 b ++ " " ++ buffer_text (b' :: bs'))%string.
    rewrite Hh. cbn [append String.length]. rewrite IH by (discriminate || exact Hbs).
    cbn [List.length]. lia.
Qed.

(** The claims C19 and C20 at the last buffer of [bits.cc]. *)
Lemma buffer_text_roundtrip_witness : parse_buffer_text (buffer_text [0xFA; 0x49]) = Some [0xFA; 0x49].
Proof.
  apply buffer_text_roundtrip; [discriminate|].
  repeat constructor; unfold is_byte; lia.
Defined.

Lemma buffer_text_length_witness : String.length (buffer_text [0x0F; 0x49]) = 5%nat.
Proof.
  apply (buffer_text_length [0x0F; 0x49]); [discriminate|].
  repeat constructor; unfold is_byte; lia.
Defined.

(** ** The loop of [print_buffer] *)

(** C22. The [for] loop of [print_buffer] terminates: from any index
    [0 <= i <= l] with [l < 2^64] (an [unsigned long] size), it returns
    a text after at most [l - i + 1] tests of [i < l], and the text is
    the same for every amount of fuel above [l - i]. *)
Theorem print_buffer_loop_total p l i :
  0 <= i <= l -> l < 2 ^ 64 ->
  exists s, forall fuel, (Z.to_nat (l - i) < fuel)%nat -> print_buffer_loop fuel p l i = Some s.
Proof. intros Hi Hl. eexists. intros fuel Hf. now apply print_buffer_loop_value. Qed.

(** Lines 50-55 print the text of [buffer_lines]. *)
Lemma print_buffer_text_value what p :
  Z.of_nat (List.length p) < 2 ^ 64 -> print_buffer_text p = Some (stdout_text what (buffer_lines p)).
Proof.
  intros Hl. unfold print_buffer_text.
  rewrite print_buffer_loop_value by lia. rewrite Z.sub_0_r, Nat2Z.id.
  destruct (List.length p) eqn:Hlen.
  - apply length_zero_iff_nil in Hlen. now subst.
  - rewrite <- Hlen, map_nth_seq_length. destruct p as [|b p']; [discriminate|].
    cbn [buffer_lines stdout_text map String.concat render_line option_map append].
    reflexivity.
Qed.

Lemma concat_empty_cons (x : string) xs : String.concat "" (x :: xs) = (x ++ String.concat "" xs)%string.
Proof. destruct xs; cbn [String.concat]; [now rewrite string_append_empty | reflexivity]. Qed.

Lemma stdout_text_cons what l ls :
  stdout_text what (l :: ls) = (render_line what l ++ newline ++ stdout_text what ls)%string.
Proof. unfold stdout_text. cbn [map]. now rewrite concat_empty_cons, string_append_assoc. Qed.

Lemma stdout_text_app what ls1 ls2 :
  stdout_text what (ls1 ++ ls2) = (stdout_text what ls1 ++ stdout_text what ls2)%string.
Proof.
  induction ls1 as [|l ls1 IH]; [reflexivity|]. rewrite <- app_comm_cons, !stdout_text_cons, IH.
  now rewrite !string_append_assoc.
Qed.

(** C23. Lines 50-55 of [print_buffer], run as written with unsigned
    wrap-around, print exactly the lines [buffer_lines] that the model
    of [bits.cc] records: the bytes of a non-empty buffer in hex,
    separated by spaces and ended by a newline, then an empty line; for
    an empty buffer ([l - 1] wraps to [2^64 - 1]) only the empty line. *)
Theorem print_buffer_text_lines what p :
  Z.of_nat (List.length p) < 2 ^ 64 -> print_buffer_text p = Some (stdout_text what (buffer_lines p)).
Proof. apply print_buffer_text_value. Qed.

(** C24. The whole of [print_buffer] on the shared [Pl_Buffer] [bp]
    holding [data]: it succeeds, leaves [bp] finished and empty, and
    appends to standard output exactly the text its loop and the final
    newline print for [data]. *)
Theorem print_buffer_stdout what w data rd :
  t_bp w = Pl_Buffer data rd -> Z.of_nat (List.length data) < 2 ^ 64 ->
  exists s w', print_buffer_text data = Some s /\ print_buffer w = (w', inr tt) /\
    t_bp w' = Pl_Buffer [] true /\ stdout_text what (t_out w') = (stdout_text what (t_out w) ++ s)%string.
Proof.
  intros Hbp Hl. rewrite (print_buffer_text_value what data Hl).
  do 2 eexists. split; [reflexivity|]. rewrite (print_buffer_run w data rd Hbp).
  split; [reflexivity|]. split; [destruct w; reflexivity|].
  destruct w; cbn. apply stdout_text_app.
Qed.

(** C22 from the start of the first buffer of [bits.cc]. *)
Lemma print_buffer_loop_total_witness :
  (0 <= 0 <= 3 /\ 3 < 2 ^ 64) /\
  exists s, forall fuel, (Z.to_nat (3 - 0) < fuel)%nat ->
    print_buffer_loop fuel [0xF5; 0x15; 0x65] 3 0 = Some s.
Proof. split; [lia|]. apply print_buffer_loop_total; lia. Defined.

(** C23 at the first buffer of [bits.cc]. *)
Lemma print_buffer_text_lines_witness :
  print_buffer_text [0xF5; 0x15; 0x65] =
    Some (stdout_text (fun _ => EmptyString) (buffer_lines [0xF5; 0x15; 0x65])).
Proof. apply print_buffer_text_lines. cbn. lia. Defined.

(** C24 at the first [print_buffer] of [bits.cc]. *)
Lemma print_buffer_stdout_witness :
  exists s w', print_buffer_text [0xF5; 0x15; 0x65] = Some s /\
    print_buffer (set_bp (Pl_Buffer [0xF5; 0x15; 0x65] false) init_world) = (w', inr tt) /\
    t_bp w' = Pl_Buffer [] true /\
    stdout_text (fun _ => EmptyString) (t_out w') =
      (stdout_text (fun _ => EmptyString) (t_out (set_bp (Pl_Buffer [0xF5; 0x15; 0x65] false) init_world)) ++ s)%string.
Proof. apply (print_buffer_stdout _ _ _ false); [reflexivity | cbn; lia]. Defined.
